(** * divadlo2025: [scripts/build-data.mjs]

    A shallow embedding of the script that turns [data/shows.csv] into
    [data/shows.json]: the CSV scanner [parseCsv], the three cell coercions
    [normBool], [splitGenres] and [toNumberOrNull], and [main], which checks
    the header, normalizes the rows and writes the document.

    Character model.  The script reads the file as UTF-8, and a JavaScript
    string is modelled by its UTF-8 encoding: a Rocq [string], one [ascii]
    for each byte.  The characters the script compares with (the quote, the
    comma, LF, CR, the percent sign, the genre delimiters, the digits and
    letters of numeric literals) are ASCII, one byte each, and no byte of
    the encoding of another character is below 128.  So the scan over the
    bytes meets them exactly where the scan over the characters does, and
    appends the bytes of every other character where the script appends
    the character; the index [i] and [String.length] count bytes where the
    script counts code units.  White space is the set of the language,
    [WhiteSpace] and [LineTerminator], each character in its encoding of
    one, two or three bytes.

    The case conversions [toUpperCase] and [toLowerCase] follow the Unicode
    case mappings, which are not embedded: the script is modelled for any
    pair of functions that act on ASCII strings as the built-ins do, on the
    26 letters and nothing else. *)

From Stdlib Require Import String Ascii List Bool Arith ZArith Lia.
From Stdlib Require Import FunInd.
From Stdlib Require Import Floats.SpecFloat.
From Stdlib Require Import Decimal DecimalString DecimalNat.
Import ListNotations.
Open Scope string_scope.
Open Scope list_scope.
Open Scope nat_scope.

(** ** The JavaScript built-ins the script calls *)

Module JS.

(** The characters the scanner compares against. *)
Definition QUOTE : ascii := "034"%char.
Definition COMMA : ascii := ","%char.
Definition LF : ascii := "010"%char.
Definition CR : ascii := "013"%char.
Definition PERCENT : ascii := "%"%char.

(** One-character strings, for building test inputs. *)
Definition quote : string := String QUOTE "".
Definition nl : string := String LF "".
Definition cr : string := String CR "".

(** [WhiteSpace] and [LineTerminator] of the language, by the length of
    their encoding.  One byte: TAB, LF, VT, FF, CR and SPACE. *)
Definition isWhiteSpace1 (c : ascii) : bool :=
  let n := nat_of_ascii c in
  ((9 <=? n) && (n <=? 13)) || (n =? 32).

(** Two bytes: U+00A0, the no-break space. *)
Definition isWhiteSpace2 (c1 c2 : ascii) : bool :=
  (nat_of_ascii c1 =? 194) && (nat_of_ascii c2 =? 160).

(** Three bytes: U+1680; U+2000 to U+200A, the line and paragraph
    separators U+2028 and U+2029, and U+202F; U+205F; U+3000; and U+FEFF,
    the byte order mark. *)
Definition isWhiteSpace3 (c1 c2 c3 : ascii) : bool :=
  let n1 := nat_of_ascii c1 in
  let n2 := nat_of_ascii c2 in
  let n3 := nat_of_ascii c3 in
  ((n1 =? 225) && (n2 =? 154) && (n3 =? 128))
  || ((n1 =? 226) && (n2 =? 128)
      && (((128 <=? n3) && (n3 <=? 138)) || (n3 =? 168) || (n3 =? 169) || (n3 =? 175)))
  || ((n1 =? 226) && (n2 =? 129) && (n3 =? 159))
  || ((n1 =? 227) && (n2 =? 128) && (n3 =? 128))
  || ((n1 =? 239) && (n2 =? 187) && (n3 =? 191)).

(** [s.trimStart()]: the white space characters at the start are left
    out, whatever their length. *)
Function trimStart (s : string) {struct s} : string :=
  match s with
  | EmptyString => EmptyString
  | String c1 r1 =>
      if isWhiteSpace1 c1 then trimStart r1
      else match r1 with
           | EmptyString => s
           | String c2 r2 =>
               if isWhiteSpace2 c1 c2 then trimStart r2
               else match r2 with
                    | EmptyString => s
                    | String c3 r3 =>
                        if isWhiteSpace3 c1 c2 c3 then trimStart r3 else s
                    end
           end
  end.

(** [s.trimEnd()]: the string is cut where what follows is white space to
    the end. *)
Fixpoint trimEnd (s : string) : string :=
  match s with
  | EmptyString => EmptyString
  | String c r =>
      if String.eqb (trimStart s) "" then EmptyString else String c (trimEnd r)
  end.

(** [s.trim()] *)
Definition trim (s : string) : string := trimEnd (trimStart s).

Definition mapChars (f : ascii -> ascii) : string -> string :=
  fix go (s : string) : string :=
    match s with
    | EmptyString => EmptyString
    | String c r => String (f c) (go r)
    end.

(** The string is ASCII: every byte is a character below 128. *)
Fixpoint isAscii (s : string) : bool :=
  match s with
  | EmptyString => true
  | String c r => (nat_of_ascii c <? 128) && isAscii r
  end.

(** What [s.toUpperCase()] and [s.toLowerCase()] are on an ASCII string:
    the 26 letters change case and every other character stays. *)
Definition asciiUpper (c : ascii) : ascii :=
  let n := nat_of_ascii c in
  if (97 <=? n) && (n <=? 122) then ascii_of_nat (n - 32) else c.

Definition asciiLower (c : ascii) : ascii :=
  let n := nat_of_ascii c in
  if (65 <=? n) && (n <=? 90) then ascii_of_nat (n + 32) else c.

Definition asciiUpperCase : string -> string := mapChars asciiUpper.
Definition asciiLowerCase : string -> string := mapChars asciiLower.

(** [s.split(re)] for a regular expression [re] that is a character class:
    the string is cut at every character of the class, and the pieces
    between the cuts (empty ones too) are returned in order. *)
Fixpoint split (isDelim : ascii -> bool) (s : string) : list string :=
  match s with
  | EmptyString => [EmptyString]
  | String c r =>
      if isDelim c then EmptyString :: split isDelim r
      else match split isDelim r with
           | p :: ps => String c p :: ps
           | [] => [String c EmptyString]
           end
  end.

(** [s.replace(p, "")] for a one-character string pattern [p]: only the
    first occurrence is removed. *)
Fixpoint replace (p : ascii) (s : string) : string :=
  match s with
  | EmptyString => EmptyString
  | String c r => if Ascii.eqb c p then r else String c (replace p r)
  end.

(** [a.join(sep)] *)
Fixpoint join (sep : string) (a : list string) : string :=
  match a with
  | [] => EmptyString
  | [x] => x
  | x :: rest => x ++ sep ++ join sep rest
  end.

(** [String(n)] for a non-negative integer, as template literals print it. *)
Definition decimal (n : nat) : string := NilZero.string_of_uint (Nat.to_uint n).

(** [a.filter(Boolean)] on an array whose elements are objects or [null]. *)
Fixpoint filterBoolean {A : Type} (a : list (option A)) : list A :=
  match a with
  | [] => []
  | Some x :: rest => x :: filterBoolean rest
  | None :: rest => filterBoolean rest
  end.

(** *** Numbers

    A Number is an IEEE 754 binary64 value; [spec_float] is the Standard
    Library's specification of those, with [prec = 53] and [emax = 1024]. *)
Definition number : Type := spec_float.
Definition prec : Z := 53.
Definition emax : Z := 1024.

(** The Number value of an integer. *)
Definition ofZ (z : Z) : number := binary_normalize prec emax z 0 false.

(** [Number.isFinite(n)] *)
Definition isFinite (n : number) : bool :=
  match n with
  | S754_zero _ | S754_finite _ _ _ => true
  | S754_infinity _ | S754_nan => false
  end.

(** The value of a digit character in a base up to 16. *)
Definition digitOf (base : N) (c : ascii) : option N :=
  let n := nat_of_ascii c in
  let v := if (48 <=? n) && (n <=? 57) then Some (n - 48)
           else if (97 <=? n) && (n <=? 102) then Some (n - 87)
           else if (65 <=? n) && (n <=? 70) then Some (n - 55)
           else None in
  match v with
  | Some d => if (N.of_nat d <? base)%N then Some (N.of_nat d) else None
  | None => None
  end.

(** The longest prefix of digits of [s]: the value it gives when it
    continues the digits already read as [acc], how many digits it has,
    and what follows it. *)
Fixpoint digits (base : N) (s : string) (acc : N) (count : nat)
  : N * nat * string :=
  match s with
  | EmptyString => (acc, count, s)
  | String c r =>
      match digitOf base c with
      | Some d => digits base r (acc * base + d) (S count)
      | None => (acc, count, s)
      end
  end.

(** The Number value for the mathematical value [m * 10 ^ e], signed:
    round to nearest, ties to even, overflow to infinity. *)
Definition roundDecimal (neg : bool) (m : N) (e : Z) : number :=
  match m with
  | N0 => S754_zero neg
  | Npos p =>
      if (0 <=? e)%Z then
        binary_round prec emax neg (p * Z.to_pos (10 ^ e)) 0
      else
        let '(q, e', l) :=
          SFdiv_core_binary prec emax (Zpos p) 0 (10 ^ (- e)) 0 in
        binary_round_aux prec emax neg q e' l
  end.

Definition signOf (s : string) : bool * string :=
  match s with
  | String "-" r => (true, r)
  | String "+" r => (false, r)
  | _ => (false, s)
  end.

(** ExponentPart_opt, which must reach the end of the string. *)
Definition exponentPart (s : string) : option Z :=
  match s with
  | EmptyString => Some 0%Z
  | String c r =>
      if Ascii.eqb c "e" || Ascii.eqb c "E" then
        let '(neg, r') := signOf r in
        let '(v, n, rest) := digits 10 r' 0 0 in
        match n, rest with
        | S _, EmptyString => Some (if neg then (- Z.of_N v)%Z else Z.of_N v)
        | _, _ => None
        end
      else None
  end.

(** StrUnsignedDecimalLiteral: [Infinity], or digits with an optional
    fraction and exponent and at least one digit before the exponent. *)
Definition unsignedDecimal (neg : bool) (s : string) : number :=
  if String.eqb s "Infinity" then S754_infinity neg
  else
    let '(m1, n1, r1) := digits 10 s 0 0 in
    let '(m, n2, r2) :=
      match r1 with
      | String "." r => digits 10 r m1 0
      | _ => (m1, 0, r1)
      end in
    match n1 + n2 with
    | 0 => S754_nan
    | S _ =>
        match exponentPart r2 with
        | Some x => roundDecimal neg m (x - Z.of_nat n2)
        | None => S754_nan
        end
    end.

(** NonDecimalIntegerLiteral: [0x], [0o] or [0b] and digits, unsigned.
    [None] when the string has no such prefix. *)
Definition nonDecimal (s : string) : option number :=
  match s with
  | String "0" (String c r) =>
      let base :=
        if Ascii.eqb c "x" || Ascii.eqb c "X" then Some 16%N
        else if Ascii.eqb c "o" || Ascii.eqb c "O" then Some 8%N
        else if Ascii.eqb c "b" || Ascii.eqb c "B" then Some 2%N
        else None in
      match base with
      | Some b =>
          let '(v, n, rest) := digits b r 0 0 in
          Some match n, rest with
               | S _, EmptyString => ofZ (Z.of_N v)
               | _, _ => S754_nan
               end
      | None => None
      end
  | _ => None
  end.

(** [Number(s)] for a string [s] (StringToNumber): white space around the
    literal is ignored, the empty literal is [+0], and a string that is
    not a StringNumericLiteral is [NaN]. *)
Definition Number (s : string) : number :=
  let t := trim s in
  if String.eqb t "" then S754_zero false
  else match nonDecimal t with
       | Some v => v
       | None => let '(neg, r) := signOf t in unsignedDecimal neg r
       end.

End JS.

Import JS.

(** ** [parseCsv]: the scanner *)

(** The five local variables of [parseCsv]. *)
Module St.
Record t : Type := mk
  { rows : list (list string);
    row : list string;
    cur : string;
    i : nat;
    inQuotes : bool }.
End St.

(** [text[k]]: [None] is [undefined], past the end of the string. *)
Definition charAt (text : string) (k : nat) : option ascii := String.get k text.

Definition isChar (o : option ascii) (c : ascii) : bool :=
  match o with
  | Some x => Ascii.eqb x c
  | None => false
  end.

(** [row.some(c => c.trim() !== "")] *)
Definition hasContent (r : list string) : bool :=
  existsb (fun c => negb (String.eqb (trim c) "")) r.

Section Scan.

(** The test that guards [rows.push(row)].  The script uses [hasContent];
    the scan is written over the test so that the rows it finalizes can
    also be observed before the test drops any. *)
Variable keep : list string -> bool.

(** [if (keep(row)) rows.push(row)] *)
Definition pushRow (rs : list (list string)) (r : list string)
  : list (list string) :=
  if keep r then rs ++ [r] else rs.

(** One iteration of the [while] loop, entered with [i < text.length], so
    that [text[i]] is a character; [text[i + 1]] may be [undefined]. *)
Definition step (text : string) (s : St.t) : St.t :=
  let '(St.mk rows row cur i inQuotes) := s in
  match charAt text i with
  | None => s
  | Some ch =>
      if inQuotes then
        if Ascii.eqb ch QUOTE then
          if isChar (charAt text (i + 1)) QUOTE then
            St.mk rows row (cur ++ String QUOTE "") (i + 2) true
          else
            St.mk rows row cur (i + 1) false
        else
          St.mk rows row (cur ++ String ch "") (i + 1) true
      else if Ascii.eqb ch QUOTE then
        St.mk rows row cur (i + 1) true
      else if Ascii.eqb ch COMMA then
        St.mk rows (row ++ [cur]) "" (i + 1) false
      else if Ascii.eqb ch LF then
        St.mk (pushRow rows (row ++ [cur])) [] "" (i + 1) false
      else if Ascii.eqb ch CR then
        St.mk rows row cur (i + 1) false
      else
        St.mk rows row (cur ++ String ch "") (i + 1) false
  end.

(** [while (i < text.length) { ... }], at most [fuel] iterations: [None]
    when the loop is still running after them. *)
Fixpoint while (fuel : nat) (text : string) (s : St.t) : option St.t :=
  if St.i s <? String.length text then
    match fuel with
    | 0 => None
    | S fuel' => while fuel' text (step text s)
    end
  else Some s.

(** The statements after the loop: the last cell, the last row. *)
Definition finish (s : St.t) : list (list string) :=
  pushRow (St.rows s) (St.row s ++ [St.cur s]).

Definition init : St.t := St.mk [] [] "" 0 false.

(** The state in which the loop of [parseCsv(text)] ends.  An iteration
    moves [i] forward, so [String.length text] iterations are enough (see
    [while_terminates]). *)
Definition scan (text : string) : option St.t :=
  while (String.length text) text init.

Definition parseWith (text : string) : list (list string) :=
  match scan text with
  | Some s => finish s
  | None => []
  end.

End Scan.

(** [parseCsv(text)] *)
Definition parseCsv (text : string) : list (list string) :=
  parseWith hasContent text.

(** Every row that [parseCsv(text)] finalizes, at a newline outside quotes
    or at the end of the input, whether or not it is then pushed. *)
Definition finalizedRows (text : string) : list (list string) :=
  parseWith (fun _ => true) text.

(** ** The case conversions

    [s.toUpperCase()] and [s.toLowerCase()], for the rest of the file: any
    two functions that are the built-ins on ASCII strings. *)

Section Script.

Variable toUpperCase : string -> string.
Variable toLowerCase : string -> string.

Hypothesis toUpperCase_ascii :
  forall s : string, isAscii s = true -> toUpperCase s = asciiUpperCase s.

Hypothesis toLowerCase_ascii :
  forall s : string, isAscii s = true -> toLowerCase s = asciiLowerCase s.

(** ** The cell coercions

    Each is written [(v || "")] in the script; the argument is a string at
    every call, and [v || ""] is then [v]. *)

(** [normBool(v)] *)
Definition normBool (v : string) : bool :=
  let t := toUpperCase (trim v) in
  String.eqb t "A" || String.eqb t "Y" || String.eqb t "YES"
  || String.eqb t "TRUE" || String.eqb t "1".

(** The character class of [/[;|,]/g]. *)
Definition isGenreDelim (c : ascii) : bool :=
  Ascii.eqb c ";" || Ascii.eqb c "|" || Ascii.eqb c ",".

(** The test of [.filter(Boolean)] on a string: the empty string is falsy. *)
Definition truthy (s : string) : bool := negb (String.eqb s "").

(** [splitGenres(v)] *)
Definition splitGenres (v : string) : list string :=
  let raw := trim v in
  if String.eqb raw "" then []
  else map toLowerCase (filter truthy (map trim (split isGenreDelim raw))).

(** [toNumberOrNull(v)]: [None] is [null]. *)
Definition toNumberOrNull (v : string) : option number :=
  let t := replace PERCENT (trim v) in
  if String.eqb t "" then None
  else
    let n := Number t in
    if isFinite n then Some n else None.

(** ** [main] *)

(** One entry of [shows]. *)
Record ShowRecord : Type := mkShow
  { date : string;
    title : string;
    theatre : string;
    place : string;
    city : string;
    host : bool;
    removed : bool;
    genres : list string;
    rating : option number;
    comment : string }.

(** The object [out], which is written as JSON. *)
Record OutputDocument : Type := mkDocument
  { schemaVersion : nat;
    generatedAt : string;
    source : string;
    shows : list ShowRecord }.

(** What a run of the script leaves behind: the lines it printed, the file
    it wrote, if [writeFileSync] returned, and its exit code.  [Uncaught]
    is the report that Node prints on the error stream when an exception
    leaves [main]; the run then ends with exit code 1. *)
Inductive stream : Type := Error | Warn | Log | Uncaught.

Definition console : Type := list (stream * string).

Record run : Type := mkRun
  { printed : console;
    written : option (string * OutputDocument);
    exitCode : nat }.

(** [process.exit(1)] after the lines [con]: nothing is written. *)
Definition exit1 (con : console) : run := mkRun con None 1.

(** [path.join("data", "shows.csv")] and [path.join("data", "shows.json")],
    with the separator of POSIX. *)
Definition INPUT : string := "data/shows.csv".
Definition OUTPUT : string := "data/shows.json".

(** The object [idx]: its own properties, column name to position.  The
    names looked up are the ten of [required], none of which is a property
    of [Object.prototype], so a name that is not an own property reads as
    [undefined], here [None]. *)
Definition object : Type := list (string * nat).

Fixpoint setProp (o : object) (k : string) (v : nat) : object :=
  match o with
  | [] => [(k, v)]
  | (k', v') :: rest =>
      if String.eqb k' k then (k', v) :: rest else (k', v') :: setProp rest k v
  end.

Fixpoint getProp (o : object) (k : string) : option nat :=
  match o with
  | [] => None
  | (k', v) :: rest => if String.eqb k' k then Some v else getProp rest k
  end.

(** [Object.fromEntries(es)]: a later entry overwrites an earlier one with
    the same key. *)
Definition fromEntries (es : list (string * nat)) : object :=
  fold_left (fun o e => setProp o (fst e) (snd e)) es [].

(** [header.map((h, i) => [h, i])] *)
Definition entries (header : list string) : list (string * nat) :=
  combine header (seq 0 (List.length header)).

Definition required : list string :=
  ["Datum"; "Nazev"; "Soubor"; "Misto"; "Mesto"; "Hostovacka"; "StazenoZR";
   "Zanry"; "Hodnoceni"; "Komentar"].

(** [r[idx[name]] ?? ""]: a name without position and a position past the
    end of the row both read as [undefined]. *)
Definition cell (idx : object) (r : list string) (name : string) : string :=
  match getProp idx name with
  | Some k => match nth_error r k with
              | Some c => c
              | None => ""
              end
  | None => ""
  end.

(** [get(name)], that is [(r[idx[name]] ?? "").trim()] *)
Definition get (idx : object) (r : list string) (name : string) : string :=
  trim (cell idx r name).

Definition skipped (rowIndex : nat) : string :=
  "Row " ++ decimal (rowIndex + 2) ++ ": missing Datum or Nazev -> skipped".

(** The callback of [rows.slice(1).map((r, rowIndex) => ...)], on the
    console it prints to: [None] is [null]. *)
Definition showOf (idx : object) (r : list string) (rowIndex : nat)
  (con : console) : option ShowRecord * console :=
  let date := get idx r "Datum" in
  let title := get idx r "Nazev" in
  let theatre := get idx r "Soubor" in
  let place := get idx r "Misto" in
  let city := get idx r "Mesto" in
  let host := normBool (get idx r "Hostovacka") in
  let removed := normBool (get idx r "StazenoZR") in
  let genres := splitGenres (get idx r "Zanry") in
  let rating := toNumberOrNull (get idx r "Hodnoceni") in
  let comment := get idx r "Komentar" in
  if String.eqb date "" || String.eqb title "" then
    (None, con ++ [(Warn, skipped rowIndex)])
  else
    (Some (mkShow date title theatre place city host removed genres rating
             comment), con).

(** [.map] calls the callback on the rows in order, [rowIndex] counting
    from the one given. *)
Fixpoint mapRows (idx : object) (rs : list (list string)) (rowIndex : nat)
  (con : console) : list (option ShowRecord) * console :=
  match rs with
  | [] => ([], con)
  | r :: rest =>
      let '(x, con1) := showOf idx r rowIndex con in
      let '(xs, con2) := mapRows idx rest (S rowIndex) con1 in
      (x :: xs, con2)
  end.

(** [rows.slice(1).map(...).filter(Boolean)] for [rows.slice(1) = rs], with
    the lines the callback printed. *)
Definition normalize (idx : object) (rs : list (list string))
  : list ShowRecord * console :=
  let '(mapped, con) := mapRows idx rs 0 [] in
  (filterBoolean mapped, con).

(** What the script finds at [INPUT]: no file, so that [existsSync] is
    false; something [readFileSync] throws on, a directory or a file that
    may not be read; or a file, with the text [readFileSync] returns for
    it. *)
Inductive readResult : Type :=
| NoFile
| Unreadable
| Contents (csvText : string).

(** The file system of a run: what is at [INPUT], and whether [mkdirSync]
    and [writeFileSync] throw. *)
Record filesystem : Type := mkFilesystem
  { input : readResult;
    mkdirThrows : bool;
    writeThrows : bool }.

(** An exception leaves [main] from the call [call], after the lines [con]:
    the script has no handler, so Node reports it and exits with code 1. *)
Definition throws (con : console) (call : string) : run :=
  exit1 (con ++ [(Uncaught, call)]).

(** [main()], run on the file system [fs] when [new Date().toISOString()]
    gives [now]. *)
Definition main (fs : filesystem) (now : string) : run :=
  match input fs with
  | NoFile => exit1 [(Error, ("Missing " ++ INPUT)%string)]
  | Unreadable => throws [] "readFileSync"
  | Contents csvText =>
      let rows := parseCsv csvText in
      if List.length rows <? 2 then
        exit1 [(Error, "CSV is empty (need header + at least one row).")]
      else
        let header := map trim (nth 0 rows []) in
        let idx := fromEntries (entries header) in
        let missing :=
          filter (fun r => match getProp idx r with
                           | None => true
                           | Some _ => false
                           end) required in
        if negb (List.length missing =? 0) then
          exit1 [(Error,
                  ("Missing columns in CSV header: " ++ join ", " missing)%string);
                 (Error, ("Found header: " ++ join " | " header)%string)]
        else
          let '(shows, con) := normalize idx (tl rows) in
          let out := mkDocument 1 now "data/shows.csv" shows in
          if mkdirThrows fs then throws con "mkdirSync"
          else if writeThrows fs then throws con "writeFileSync"
          else
            mkRun (con ++ [(Log, ("Wrote " ++ OUTPUT ++ " (" ++
                                   decimal (List.length shows) ++ " shows)")%string)])
                  (Some (OUTPUT, out)) 0
  end.

(** ** Vocabulary of the properties *)

(** A cell written as a quoted field: its quotes doubled, between quotes. *)
Fixpoint doubled (w : string) : string :=
  match w with
  | EmptyString => EmptyString
  | String c r =>
      if Ascii.eqb c QUOTE then String QUOTE (String QUOTE (doubled r))
      else String c (doubled r)
  end.

Definition quoted (w : string) : string :=
  String QUOTE (doubled w ++ quote).

(** The string has no quote character. *)
Fixpoint noQuote (w : string) : bool :=
  match w with
  | EmptyString => true
  | String c r => negb (Ascii.eqb c QUOTE) && noQuote r
  end.

(** The values [normBool] takes for true, in upper case. *)
Definition truthyTokens : list string := ["A"; "Y"; "YES"; "TRUE"; "1"].

(** The row has no date or no title: the test [!date || !title]. *)
Definition incomplete (idx : object) (r : list string) : bool :=
  String.eqb (get idx r "Datum") "" || String.eqb (get idx r "Nazev") "".

(** The record [main] builds from a row. *)
Definition recordOf (idx : object) (r : list string) : ShowRecord :=
  mkShow (get idx r "Datum") (get idx r "Nazev") (get idx r "Soubor")
    (get idx r "Misto") (get idx r "Mesto")
    (normBool (get idx r "Hostovacka")) (normBool (get idx r "StazenoZR"))
    (splitGenres (get idx r "Zanry")) (toNumberOrNull (get idx r "Hodnoceni"))
    (get idx r "Komentar").

(** The rows paired with their [rowIndex], counting from [k]. *)
Definition indexed (rs : list (list string)) (k : nat) : list (list string * nat) :=
  combine rs (seq k (List.length rs)).

(** The numeric coercion as the specification words it: a trailing percent
    sign is stripped if there is one, the value is trimmed, the empty
    string gives [null], and so does a string that is not a numeric
    literal, for which [Number] gives [NaN]. *)
Fixpoint stripTrailingPercent (s : string) : string :=
  match s with
  | EmptyString => EmptyString
  | String c EmptyString => if Ascii.eqb c PERCENT then EmptyString else s
  | String c r => String c (stripTrailingPercent r)
  end.

Definition toNumberOrNull_claimed (v : string) : option number :=
  let t := trim (stripTrailingPercent v) in
  if String.eqb t "" then None
  else match Number t with
       | S754_nan => None
       | n => Some n
       end.

(** The character is a decimal digit. *)
Definition isDigit (c : ascii) : bool :=
  match digitOf 10 c with
  | Some _ => true
  | None => false
  end.

(** [null] unless the number is finite: the last line of [toNumberOrNull]. *)
Definition finiteOrNull (n : number) : option number :=
  if isFinite n then Some n else None.

(** The integer a Number is, when it is one: [m * 2 ^ e], signed. *)
Definition integerValue (n : number) : option Z :=
  match n with
  | S754_zero _ => Some 0%Z
  | S754_finite s m e =>
      let sign (z : Z) := if s then (- z)%Z else z in
      if (0 <=? e)%Z then Some (sign (Zpos m * 2 ^ e)%Z)
      else if (Zpos m mod 2 ^ (- e) =? 0)%Z then Some (sign (Zpos m / 2 ^ (- e))%Z)
      else None
  | S754_infinity _ | S754_nan => None
  end.

(** Every character of the string passes the test. *)
Fixpoint allChars (f : ascii -> bool) (w : string) : bool :=
  match w with
  | EmptyString => true
  | String c r => f c && allChars f r
  end.

(** Pieces put back together: [p], then each further piece after the
    character that separates it from the one before. *)
Fixpoint glue (p : string) (rest : list (ascii * string)) : string :=
  match rest with
  | [] => p
  | (d, q) :: rest' => p ++ String d (glue q rest')
  end.

(** The scan state with the rows that fail [keep] taken out. *)
Definition dropRows (keep : list string -> bool) (s : St.t) : St.t :=
  St.mk (filter keep (St.rows s)) (St.row s) (St.cur s) (St.i s)
    (St.inQuotes s).

(** The scan of [text] ends inside quotes: a quote opened a field and no
    quote closed it. *)
Definition endsInQuotes (text : string) : bool :=
  match scan hasContent text with
  | Some s => St.inQuotes s
  | None => false
  end.

(** The scan state of a text [t], as the state of the scan of [p ++ t] that
    had the rows [R] when it came to [t]. *)
Definition shiftState (R : list (list string)) (p : string) (s : St.t) : St.t :=
  St.mk (R ++ St.rows s) (St.row s) (St.cur s) (String.length p + St.i s)
    (St.inQuotes s).

Definition isComma (c : ascii) : bool := Ascii.eqb c COMMA.
Definition isLF (c : ascii) : bool := Ascii.eqb c LF.

(** The text without its carriage returns. *)
Fixpoint dropCR (s : string) : string :=
  match s with
  | EmptyString => EmptyString
  | String c r => if Ascii.eqb c CR then dropCR r else String c (dropCR r)
  end.

(** The table of a text without quotes: its lines, cut at the commas. *)
Definition plainTable (text : string) : list (list string) :=
  map (split isComma) (split isLF (dropCR text)).

(** The rows [table], when its first row goes on a row that already has the
    cells [r] and the beginning [c] of a cell. *)
Definition continue (r : list string) (c : string) (table : list (list string))
  : list (list string) :=
  match table with
  | (c0 :: cs) :: rest => (r ++ (c ++ c0)%string :: cs) :: rest
  | _ => table
  end.

(** A table written as CSV: every cell as a quoted field, the cells of a
    row joined by commas, the rows joined by newlines. *)
Definition encodeRow (cells : list string) : string := join "," (map quoted cells).

Definition encode (table : list (list string)) : string :=
  join nl (map encodeRow table).

(** The object [idx] that [main] builds from a header, and the header
    [main] reads from a text. *)
Definition idxOf (header : list string) : object := fromEntries (entries header).

Definition headerOf (csvText : string) : list string :=
  map trim (nth 0 (parseCsv csvText) []).

(** A piece of a genre list as [splitGenres] puts it in lower case: not
    empty, trimmed, without a delimiter. *)
Definition isGenrePiece (t : string) : Prop :=
  t <> "" /\ trim t = t /\ allChars (fun c => negb (isGenreDelim c)) t = true.

(** A genre of an ASCII value: ASCII, not empty, trimmed, without a
    delimiter, in lower case. *)
Definition isAsciiGenre (g : string) : Prop :=
  isAscii g = true /\ isGenrePiece g /\ asciiLowerCase g = g.

(** What holds of every record [main] emits. *)
Definition wellFormed (x : ShowRecord) : Prop :=
  date x <> "" /\ title x <> ""
  /\ Forall (fun f => trim f = f)
       [date x; title x; theatre x; place x; city x; comment x]
  /\ Forall (fun g => exists t, g = toLowerCase t /\ isGenrePiece t) (genres x)
  /\ match rating x with
     | Some n => isFinite n = true
     | None => True
     end.

(** The character occurs in the string. *)
Fixpoint hasChar (c : ascii) (s : string) : bool :=
  match s with
  | EmptyString => false
  | String x r => Ascii.eqb x c || hasChar c r
  end.

(** How many times the character occurs in the string. *)
Fixpoint countChar (c : ascii) (s : string) : nat :=
  match s with
  | EmptyString => 0
  | String x r => (if Ascii.eqb x c then 1 else 0) + countChar c r
  end.

(** The characters of a blank text: white space of one byte and commas. *)
Definition isBlankChar (c : ascii) : bool := isWhiteSpace1 c || Ascii.eqb c COMMA.

(** An ASCII character that is not white space. *)
Definition isPlain (c : ascii) : bool :=
  (nat_of_ascii c <? 128) && negb (isWhiteSpace1 c).

(** The file system in which [data/shows.csv] holds [csvText] and neither
    [mkdirSync] nor [writeFileSync] throws. *)
Definition onDisk (csvText : string) : filesystem :=
  mkFilesystem (Contents csvText) false false.

(** The encodings of U+00A0, the no-break space, of U+FEFF, the byte
    order mark, and of U+010C, the capital C with caron. *)
Definition NBSP : string := String (ascii_of_nat 194) (String (ascii_of_nat 160) "").
Definition BOM : string :=
  String (ascii_of_nat 239) (String (ascii_of_nat 187) (String (ascii_of_nat 191) "")).
Definition Ccaron : string := String (ascii_of_nat 196) (String (ascii_of_nat 140) "").

(** * Properties *)

(** ** Strings *)

Lemma length_append (a b : string) :
  String.length (a ++ b) = String.length a + String.length b.
Proof. induction a as [|c a IH]; simpl; [reflexivity | now rewrite IH]. Qed.

Lemma append_nil_r (a : string) : (a ++ "")%string = a.
Proof. induction a as [|c a IH]; simpl; [reflexivity | now rewrite IH]. Qed.

Lemma append_assoc (a b c : string) :
  ((a ++ b) ++ c)%string = (a ++ (b ++ c))%string.
Proof. induction a as [|x a IH]; simpl; [reflexivity | now rewrite IH]. Qed.

Lemma charAt_lt (text : string) (k : nat) :
  k < String.length text -> exists ch, charAt text k = Some ch.
Proof.
  revert k; induction text as [|c text IH]; simpl; intros k Hk; [lia|].
  destruct k as [|k]; [now exists c|].
  apply IH; lia.
Qed.

Lemma charAt_ge (text : string) (k : nat) :
  String.length text <= k -> charAt text k = None.
Proof.
  revert k; induction text as [|c text IH]; simpl; intros k Hk.
  - now destruct k.
  - destruct k as [|k]; [lia|]. apply IH; lia.
Qed.

Lemma charAt_some (text : string) (k : nat) (ch : ascii) :
  charAt text k = Some ch -> k < String.length text.
Proof.
  intros H. destruct (Nat.lt_ge_cases k (String.length text)) as [|Hge]; [assumption|].
  rewrite (charAt_ge _ _ Hge) in H; discriminate.
Qed.

Lemma charAt_app (p r : string) (k : nat) :
  charAt (p ++ r) (String.length p + k) = charAt r k.
Proof. induction p as [|c p IH]; simpl; [reflexivity | exact IH]. Qed.

Lemma charAt_app_here (p : string) (c : ascii) (r : string) :
  charAt (p ++ String c r) (String.length p) = Some c.
Proof. rewrite <- (Nat.add_0_r (String.length p)), charAt_app. reflexivity. Qed.

Lemma charAt_app_next (p : string) (c : ascii) (r : string) :
  charAt (p ++ String c r) (String.length p + 1) = charAt r 0.
Proof. rewrite charAt_app. reflexivity. Qed.

(** ** The scanner: progress and termination *)

Section ScanFacts.

Variable keep : list string -> bool.

Lemma while_unfold (fuel : nat) (text : string) (s : St.t) :
  St.i s < String.length text ->
  while keep (S fuel) text s = while keep fuel text (step keep text s).
Proof.
  intros H. simpl. apply Nat.ltb_lt in H. now rewrite H.
Qed.

Lemma while_done (fuel : nat) (text : string) (s : St.t) :
  String.length text <= St.i s -> while keep fuel text s = Some s.
Proof.
  intros H. apply Nat.ltb_ge in H. destruct fuel; simpl; now rewrite H.
Qed.

(** An iteration moves the index forward by one, or by two when it reads
    an escaped quote, and never past the end of the text. *)
Lemma step_advance (text : string) (s : St.t) :
  St.i s < String.length text ->
  (St.i (step keep text s) = St.i s + 1
   \/ (St.i (step keep text s) = St.i s + 2
       /\ St.inQuotes s = true
       /\ charAt text (St.i s) = Some QUOTE
       /\ charAt text (St.i s + 1) = Some QUOTE))
  /\ St.i (step keep text s) <= String.length text.
Proof.
  destruct s as [rs r c k q]; simpl; intros Hk.
  destruct (charAt_lt _ _ Hk) as [ch Hch]. rewrite Hch.
  destruct q.
  - destruct (Ascii.eqb ch QUOTE) eqn:Eq.
    + apply Ascii.eqb_eq in Eq; subst ch.
      destruct (charAt text (k + 1)) as [d|] eqn:Hd; simpl.
      * destruct (Ascii.eqb d QUOTE) eqn:Ed; simpl.
        -- apply Ascii.eqb_eq in Ed; subst d.
           apply charAt_some in Hd. split; [right; auto | lia].
        -- split; [left; reflexivity | lia].
      * split; [left; reflexivity | lia].
    + simpl. split; [left; reflexivity | lia].
  - destruct (Ascii.eqb ch QUOTE); [simpl; split; [left; reflexivity | lia]|].
    destruct (Ascii.eqb ch COMMA); [simpl; split; [left; reflexivity | lia]|].
    destruct (Ascii.eqb ch LF); [simpl; split; [left; reflexivity | lia]|].
    destruct (Ascii.eqb ch CR); simpl; split; (left; reflexivity) || lia.
Qed.

(** The loop ends within as many iterations as there are characters left,
    with the index at the end of the text. *)
Lemma while_terminates (text : string) (fuel : nat) (s : St.t) :
  St.i s <= String.length text ->
  String.length text - St.i s <= fuel ->
  exists s', while keep fuel text s = Some s' /\ St.i s' = String.length text.
Proof.
  revert s; induction fuel as [|fuel IH]; intros s Hle Hfuel.
  - exists s. split; [apply while_done; lia | lia].
  - destruct (Nat.lt_ge_cases (St.i s) (String.length text)) as [Hlt|Hge].
    + rewrite while_unfold by assumption.
      destruct (step_advance text s Hlt) as [Hadv Hbound].
      apply IH; [assumption|].
      destruct Hadv as [E|[E _]]; rewrite E; lia.
    + exists s. split; [apply while_done; lia | lia].
Qed.

(** More fuel than the loop needs changes nothing. *)
Lemma while_more (text : string) (fuel extra : nat) (s s' : St.t) :
  while keep fuel text s = Some s' ->
  while keep (fuel + extra) text s = Some s'.
Proof.
  revert s; induction fuel as [|fuel IH]; intros s H.
  - simpl in H. destruct (St.i s <? String.length text) eqn:E; [discriminate|].
    injection H as <-. apply while_done. now apply Nat.ltb_ge.
  - simpl in H |- *. destruct (St.i s <? String.length text); [|assumption].
    now apply IH.
Qed.

Lemma scan_total (text : string) :
  exists s, scan keep text = Some s /\ St.i s = String.length text.
Proof. apply while_terminates; simpl; lia. Qed.

End ScanFacts.

(** ** The scanner: quoted fields *)

Section QuotedFacts.

Variable keep : list string -> bool.

Lemma step_quote_escaped (text : string) (s : St.t) :
  St.inQuotes s = true ->
  charAt text (St.i s) = Some QUOTE ->
  charAt text (St.i s + 1) = Some QUOTE ->
  step keep text s =
  St.mk (St.rows s) (St.row s) (St.cur s ++ quote) (St.i s + 2) true.
Proof.
  destruct s as [rs r c k q]; simpl; intros -> H0 H1.
  rewrite H0, H1. reflexivity.
Qed.

Lemma step_quote_closing (text : string) (s : St.t) :
  St.inQuotes s = true ->
  charAt text (St.i s) = Some QUOTE ->
  charAt text (St.i s + 1) <> Some QUOTE ->
  step keep text s =
  St.mk (St.rows s) (St.row s) (St.cur s) (St.i s + 1) false.
Proof.
  destruct s as [rs r c k q]; simpl; intros -> H0 H1.
  rewrite H0. simpl.
  destruct (charAt text (k + 1)) as [d|]; simpl; [|reflexivity].
  destruct (Ascii.eqb d QUOTE) eqn:E; [|reflexivity].
  apply Ascii.eqb_eq in E; subst d. now elim H1.
Qed.

Lemma step_quote_literal (text : string) (s : St.t) (ch : ascii) :
  St.inQuotes s = true ->
  charAt text (St.i s) = Some ch ->
  ch <> QUOTE ->
  step keep text s =
  St.mk (St.rows s) (St.row s) (St.cur s ++ String ch "") (St.i s + 1) true.
Proof.
  destruct s as [rs r c k q]; simpl; intros -> H0 H1.
  rewrite H0. apply Ascii.eqb_neq in H1. now rewrite H1.
Qed.

(** Inside quotes, the doubled form of [w] is read back as [w], one
    iteration for each character of [w], whatever follows it. *)
Lemma inQuotes_run (w p rest : string) (fuel : nat) (s : St.t) :
  St.i s = String.length p ->
  St.inQuotes s = true ->
  while keep (String.length w + fuel) (p ++ doubled w ++ rest) s =
  while keep fuel (p ++ doubled w ++ rest)
    (St.mk (St.rows s) (St.row s) (St.cur s ++ w)
       (St.i s + String.length (doubled w)) true).
Proof.
  revert p s; induction w as [|c w IH]; intros p s Hi Hq.
  - simpl. rewrite append_nil_r, Nat.add_0_r.
    destruct s; simpl in *; now subst.
  - cbn [String.length Nat.add doubled].
    destruct (Ascii.eqb c QUOTE) eqn:E.
    + apply Ascii.eqb_eq in E; subst c.
      cbn [append].
      assert (H0 : charAt (p ++ String QUOTE (String QUOTE (doubled w ++ rest)))
                     (St.i s) = Some QUOTE)
        by (rewrite Hi; apply charAt_app_here).
      assert (H1 : charAt (p ++ String QUOTE (String QUOTE (doubled w ++ rest)))
                     (St.i s + 1) = Some QUOTE)
        by (rewrite Hi, charAt_app_next; reflexivity).
      rewrite while_unfold by (eapply charAt_some; eassumption).
      rewrite (step_quote_escaped _ _ Hq H0 H1).
      replace (p ++ String QUOTE (String QUOTE (doubled w ++ rest)))%string
        with ((p ++ String QUOTE (String QUOTE "")) ++ doubled w ++ rest)%string
        by (rewrite append_assoc; reflexivity).
      rewrite IH; cbn [St.i St.inQuotes St.rows St.row St.cur];
        [|rewrite length_append; simpl; lia | reflexivity].
      f_equal. f_equal; [|simpl; lia].
      unfold quote. rewrite append_assoc. reflexivity.
    + cbn [append].
      assert (H0 : charAt (p ++ String c (doubled w ++ rest)) (St.i s) = Some c)
        by (rewrite Hi; apply charAt_app_here).
      rewrite while_unfold by (eapply charAt_some; eassumption).
      apply Ascii.eqb_neq in E.
      rewrite (step_quote_literal _ _ _ Hq H0 E).
      replace (p ++ String c (doubled w ++ rest))%string
        with ((p ++ String c "") ++ doubled w ++ rest)%string
        by (rewrite append_assoc; reflexivity).
      rewrite IH; cbn [St.i St.inQuotes St.rows St.row St.cur];
        [|rewrite length_append; simpl; lia | reflexivity].
      f_equal. f_equal; [|simpl; lia].
      rewrite append_assoc. reflexivity.
Qed.

(** A whole quoted field, read from outside quotes: two more iterations,
    for the opening and the closing quote.  What follows the field must
    not begin with a quote, which would double the closing one. *)
Lemma quoted_run (w p rest : string) (fuel : nat) (s : St.t) :
  St.i s = String.length p ->
  St.inQuotes s = false ->
  isChar (charAt rest 0) QUOTE = false ->
  while keep (String.length w + 2 + fuel) (p ++ quoted w ++ rest) s =
  while keep fuel (p ++ quoted w ++ rest)
    (St.mk (St.rows s) (St.row s) (St.cur s ++ w)
       (St.i s + String.length (quoted w)) false).
Proof.
  intros Hi Hq Hrest.
  set (text := (p ++ quoted w ++ rest)%string).
  assert (Etext : text = ((p ++ quote) ++ doubled w ++ String QUOTE rest)%string).
  { unfold text, quoted, quote. rewrite !append_assoc. simpl.
    rewrite append_assoc. reflexivity. }
  assert (H0 : charAt text (St.i s) = Some QUOTE).
  { unfold text, quoted. rewrite Hi. cbn [append]. apply charAt_app_here. }
  replace (String.length w + 2 + fuel) with (S (String.length w + S fuel)) by lia.
  rewrite while_unfold by (eapply charAt_some; eassumption).
  assert (Estep : step keep text s =
                  St.mk (St.rows s) (St.row s) (St.cur s) (St.i s + 1) true).
  { destruct s as [rs r c k q]; simpl in *; subst q. rewrite H0. reflexivity. }
  rewrite Estep, Etext.
  rewrite inQuotes_run; cbn [St.i St.inQuotes St.rows St.row St.cur];
    [|rewrite length_append; simpl; lia | reflexivity].
  set (s1 := St.mk _ _ _ _ true).
  assert (Hi1 : St.i s1 = String.length ((p ++ quote) ++ doubled w)).
  { unfold s1; simpl. rewrite !length_append, Hi. simpl. lia. }
  rewrite <- append_assoc in *.
  assert (H1 : charAt (((p ++ quote) ++ doubled w) ++ String QUOTE rest) (St.i s1)
               = Some QUOTE) by (rewrite Hi1; apply charAt_app_here).
  rewrite while_unfold by (eapply charAt_some; eassumption).
  rewrite step_quote_closing; [| reflexivity | assumption |].
  - f_equal. unfold s1; cbn [St.i St.inQuotes St.rows St.row St.cur].
    f_equal. unfold quoted. simpl. rewrite length_append. simpl. lia.
  - rewrite Hi1, charAt_app_next. intros E. rewrite E in Hrest.
    discriminate Hrest.
Qed.

Lemma doubled_noQuote (w : string) : noQuote w = true -> doubled w = w.
Proof.
  induction w as [|c w IH]; simpl; [reflexivity|].
  intros H. apply andb_prop in H as [H1 H2].
  apply negb_true_iff in H1. rewrite H1. now rewrite IH.
Qed.

End QuotedFacts.

(** ** The scanner: text outside quotes *)

Section UnquotedFacts.

Variable keep : list string -> bool.

(** Outside quotes an iteration reads one character and no more. *)
Lemma step_unquoted_local (t1 t2 : string) (s : St.t) :
  St.inQuotes s = false ->
  charAt t1 (St.i s) = charAt t2 (St.i s) ->
  step keep t1 s = step keep t2 s.
Proof.
  destruct s as [rs r c k q]; simpl; intros -> E. now rewrite E.
Qed.

Lemma step_unquoted_next (text : string) (s : St.t) (ch : ascii) :
  St.inQuotes s = false ->
  charAt text (St.i s) = Some ch ->
  ch <> QUOTE ->
  St.i (step keep text s) = St.i s + 1
  /\ St.inQuotes (step keep text s) = false.
Proof.
  destruct s as [rs r c k q]; simpl; intros -> E Hch. rewrite E.
  apply Ascii.eqb_neq in Hch. rewrite Hch.
  destruct (Ascii.eqb ch COMMA); [now split|].
  destruct (Ascii.eqb ch LF); [now split|].
  destruct (Ascii.eqb ch CR); now split.
Qed.

(** A stretch [q] without quotes, read from outside quotes, is scanned
    the same way whatever comes after it. *)
Lemma unquoted_run (q p rest : string) (fuel : nat) (s : St.t) :
  St.i s = String.length p ->
  St.inQuotes s = false ->
  noQuote q = true ->
  exists s',
    while keep (String.length q) (p ++ q) s = Some s'
    /\ St.i s' = String.length (p ++ q)
    /\ St.inQuotes s' = false
    /\ while keep (String.length q + fuel) (p ++ q ++ rest) s =
       while keep fuel (p ++ q ++ rest) s'.
Proof.
  revert p s; induction q as [|c q IH]; intros p s Hi Hq Hnq.
  - exists s. rewrite append_nil_r. simpl String.length.
    repeat split; try assumption.
    apply while_done. lia.
  - simpl in Hnq. apply andb_prop in Hnq as [Hc Hnq].
    apply negb_true_iff, Ascii.eqb_neq in Hc.
    assert (H1 : charAt (p ++ String c q) (St.i s) = Some c)
      by (rewrite Hi; apply charAt_app_here).
    assert (H2 : charAt (p ++ String c q ++ rest) (St.i s) = Some c)
      by (rewrite Hi; apply charAt_app_here).
    destruct (step_unquoted_next _ _ _ Hq H1 Hc) as [Hi1 Hq1].
    assert (Hi1' : St.i (step keep (p ++ String c q) s)
                   = String.length (p ++ String c ""))
      by (rewrite Hi1, Hi, length_append; reflexivity).
    destruct (IH (p ++ String c "")%string _ Hi1' Hq1 Hnq)
      as (s' & W1 & Ei & Eq & W2).
    exists s'.
    cbn [String.length Nat.add].
    rewrite !while_unfold by (eapply charAt_some; eassumption).
    rewrite <- (step_unquoted_local (p ++ String c q) (p ++ String c q ++ rest))
      by (assumption || congruence).
    rewrite append_assoc in W1, Ei, W2. simpl in W1, Ei, W2.
    repeat split; assumption.
Qed.

Lemma pushRow_filter (rs : list (list string)) (r : list string) :
  pushRow keep (filter keep rs) r = filter keep (pushRow (fun _ => true) rs r).
Proof.
  unfold pushRow. rewrite filter_app. simpl.
  destruct (keep r); [reflexivity | now rewrite app_nil_r].
Qed.

(** The scan that tests rows with [keep] is the scan that pushes every
    row, with the rows that fail [keep] taken out. *)
Lemma step_dropRows (text : string) (s : St.t) :
  step keep text (dropRows keep s) =
  dropRows keep (step (fun _ => true) text s).
Proof.
  destruct s as [rs r c k q]; unfold dropRows; simpl.
  destruct (charAt text k) as [ch|]; [|reflexivity].
  destruct q.
  - destruct (Ascii.eqb ch QUOTE); [|reflexivity].
    destruct (isChar (charAt text (k + 1)) QUOTE); reflexivity.
  - destruct (Ascii.eqb ch QUOTE); [reflexivity|].
    destruct (Ascii.eqb ch COMMA); [reflexivity|].
    destruct (Ascii.eqb ch LF); [simpl; now rewrite pushRow_filter|].
    destruct (Ascii.eqb ch CR); reflexivity.
Qed.

Lemma while_dropRows (fuel : nat) (text : string) (s : St.t) :
  while keep fuel text (dropRows keep s) =
  option_map (dropRows keep) (while (fun _ => true) fuel text s).
Proof.
  revert s; induction fuel as [|fuel IH]; intros s; cbn [while];
    change (St.i (dropRows keep s)) with (St.i s);
    destruct (St.i s <? String.length text); try reflexivity.
  rewrite step_dropRows. apply IH.
Qed.

Lemma parseWith_filter (text : string) :
  parseWith keep text = filter keep (parseWith (fun _ => true) text).
Proof.
  unfold parseWith, scan.
  change (while keep (String.length text) text init)
    with (while keep (String.length text) text (dropRows keep init)).
  rewrite while_dropRows.
  destruct (while (fun _ => true) (String.length text) text init) as [s|];
    [|reflexivity].
  simpl. unfold finish. apply pushRow_filter.
Qed.

End UnquotedFacts.

Lemma hasContent_iff (r : list string) :
  hasContent r = true <-> exists c, In c r /\ trim c <> "".
Proof.
  unfold hasContent. rewrite existsb_exists.
  split; intros (c & Hc & H); exists c; split; try assumption.
  - apply negb_true_iff, String.eqb_neq in H. exact H.
  - apply negb_true_iff, String.eqb_neq. exact H.
Qed.

Lemma length_doubled (w : string) :
  String.length w <= String.length (doubled w).
Proof.
  induction w as [|c w IH]; simpl; [lia|].
  destruct (Ascii.eqb c QUOTE); simpl; lia.
Qed.

(** A text that is one quoted field has one row of one cell, the field's
    content, unless the row test drops it. *)
Lemma parseWith_quoted (keep : list string -> bool) (w : string) :
  parseWith keep (quoted w) = pushRow keep [] [w].
Proof.
  unfold parseWith, scan.
  pose proof (length_doubled w) as Hlen.
  assert (El : String.length (quoted w) = String.length (doubled w) + 2)
    by (unfold quoted; simpl; rewrite length_append; simpl; lia).
  replace (String.length (quoted w))
    with (String.length w + 2 + (String.length (quoted w) - (String.length w + 2)))
    at 1 by lia.
  pose proof (quoted_run keep w "" "" (String.length (quoted w) - (String.length w + 2))
                init eq_refl eq_refl eq_refl) as H.
  cbn [append] in H. rewrite append_nil_r in H. rewrite H.
  rewrite while_done by (simpl; lia).
  reflexivity.
Qed.

(** C10. [parseCsv] is total.  Every iteration of its loop moves the index
    forward by one character, or by two when, inside quotes, it reads a
    quote followed by a quote, and never past the end of the text; so the
    loop ends, within [text.length] iterations, with the index at the end
    of the text, and more iterations than that change nothing. *)
Theorem parseCsv_terminates (text : string) :
  (forall s : St.t,
      St.i s < String.length text ->
      (St.i (step hasContent text s) = St.i s + 1
       \/ (St.i (step hasContent text s) = St.i s + 2
           /\ St.inQuotes s = true
           /\ charAt text (St.i s) = Some QUOTE
           /\ charAt text (St.i s + 1) = Some QUOTE))
      /\ St.i (step hasContent text s) <= String.length text)
  /\ (exists s : St.t,
         scan hasContent text = Some s
         /\ St.i s = String.length text
         /\ parseCsv text = finish hasContent s)
  /\ (forall fuel : nat,
         String.length text <= fuel ->
         while hasContent fuel text init = scan hasContent text).
Proof.
  split; [|split].
  - intros s Hs. now apply step_advance.
  - destruct (scan_total hasContent text) as (s & Hs & Hi).
    exists s. repeat split; try assumption.
    unfold parseCsv, parseWith. now rewrite Hs.
  - intros fuel Hfuel.
    destruct (scan_total hasContent text) as (s & Hs & _).
    rewrite Hs.
    replace fuel with (String.length text + (fuel - String.length text)) by lia.
    now apply while_more.
Qed.

Lemma parseCsv_terminates_witness :
  (St.i (step hasContent (quote ++ quote ++ quote ++ "a") (St.mk [] [] "" 1 true))
   = 1 + 1
   \/ (St.i (step hasContent (quote ++ quote ++ quote ++ "a") (St.mk [] [] "" 1 true))
       = 1 + 2
       /\ true = true
       /\ charAt (quote ++ quote ++ quote ++ "a") 1 = Some QUOTE
       /\ charAt (quote ++ quote ++ quote ++ "a") (1 + 1) = Some QUOTE))
  /\ St.i (step hasContent (quote ++ quote ++ quote ++ "a") (St.mk [] [] "" 1 true))
     <= 4.
Proof.
  apply (proj1 (parseCsv_terminates (quote ++ quote ++ quote ++ "a"))
           (St.mk [] [] "" 1 true)).
  simpl. lia.
Defined.

(** C5. Inside a quoted field a quote followed by a quote adds one quote
    to the cell, a quote alone leaves quoted mode, and any other character,
    comma and newline too, is added to the cell as it is.  So a cell written
    as a quoted field, with its quotes doubled, is read back as that one
    cell; the field with a comma, a newline and a doubled quote is the
    example. *)
Theorem quoted_field_literal :
  (forall (keep : list string -> bool) (text : string) (s : St.t),
      St.inQuotes s = true ->
      (charAt text (St.i s) = Some QUOTE ->
       charAt text (St.i s + 1) = Some QUOTE ->
       step keep text s =
       St.mk (St.rows s) (St.row s) (St.cur s ++ quote) (St.i s + 2) true)
      /\ (charAt text (St.i s) = Some QUOTE ->
          charAt text (St.i s + 1) <> Some QUOTE ->
          step keep text s =
          St.mk (St.rows s) (St.row s) (St.cur s) (St.i s + 1) false)
      /\ (forall ch : ascii,
             charAt text (St.i s) = Some ch ->
             ch <> QUOTE ->
             step keep text s =
             St.mk (St.rows s) (St.row s) (St.cur s ++ String ch "")
               (St.i s + 1) true))
  /\ (forall w : string,
         finalizedRows (quoted w) = [[w]]
         /\ parseCsv (quoted w) = if hasContent [w] then [[w]] else [])
  /\ parseCsv (quote ++ "a,b" ++ nl ++ "c" ++ quote ++ quote ++ "d" ++ quote)
     = [[("a,b" ++ nl ++ "c" ++ quote ++ "d")%string]].
Proof.
  split; [|split].
  - intros keep text s Hq. split; [|split].
    + now apply step_quote_escaped.
    + now apply step_quote_closing.
    + intros ch. now apply step_quote_literal.
  - intros w. unfold finalizedRows, parseCsv.
    rewrite !parseWith_quoted. split; reflexivity.
  - reflexivity.
Qed.

Lemma quoted_field_literal_witness :
  step hasContent (quote ++ "a" ++ quote ++ quote ++ "b") (St.mk [] ["x"] "a" 2 true)
  = St.mk [] ["x"] ("a" ++ quote) 4 true.
Proof.
  apply (proj1 (proj1 quoted_field_literal hasContent
                  (quote ++ "a" ++ quote ++ quote ++ "b")%string
                  (St.mk [] ["x"] "a" 2 true) eq_refl));
    reflexivity.
Defined.

(** C6. The rows [parseCsv] returns are the rows it finalizes that have a
    cell which is not empty once trimmed, in order: a finalized row is in
    the output exactly when it has such a cell, and a row of blank cells
    never is, at the start, in the middle or at the end of the text.
    White space is that of the language: a row of no-break spaces, or of a
    byte order mark, is blank. *)
Theorem row_suppression :
  (forall text : string,
      parseCsv text = filter hasContent (finalizedRows text))
  /\ (forall (text : string) (r : list string),
         In r (parseCsv text) <->
         In r (finalizedRows text) /\ exists c, In c r /\ trim c <> "")
  /\ (forall (text : string) (r : list string),
         Forall (fun c => trim c = "") r -> ~ In r (parseCsv text))
  /\ finalizedRows (" ,," ++ nl ++ "a,b" ++ nl ++ ", ," ++ cr ++ nl ++ nl ++ "c"
                    ++ nl ++ " , ")
     = [[" "; ""; ""]; ["a"; "b"]; [""; " "; ""]; [""]; ["c"]; [" "; " "]]
  /\ parseCsv (" ,," ++ nl ++ "a,b" ++ nl ++ ", ," ++ cr ++ nl ++ nl ++ "c"
               ++ nl ++ " , ")
     = [["a"; "b"]; ["c"]]
  /\ finalizedRows (BOM ++ nl ++ "a" ++ nl ++ NBSP ++ ", " ++ NBSP ++ nl ++ "b")
     = [[BOM]; ["a"]; [NBSP; (" " ++ NBSP)%string]; ["b"]]
  /\ parseCsv (BOM ++ nl ++ "a" ++ nl ++ NBSP ++ ", " ++ NBSP ++ nl ++ "b")
     = [["a"]; ["b"]].
Proof.
  assert (E : forall text, parseCsv text = filter hasContent (finalizedRows text))
    by (intros text; apply parseWith_filter).
  split; [exact E|]. split; [|split; [|repeat split; reflexivity]].
  - intros text r. rewrite E, filter_In, hasContent_iff. reflexivity.
  - intros text r Hblank Hin. rewrite E, filter_In, hasContent_iff in Hin.
    destruct Hin as (_ & c & Hc & Hne).
    rewrite Forall_forall in Hblank. now apply Hne, Hblank.
Qed.

Lemma row_suppression_witness :
  ~ In [""; " "] (parseCsv ("a" ++ nl ++ ", " ++ nl ++ "b")).
Proof.
  apply (proj1 (proj2 (proj2 row_suppression))).
  repeat constructor.
Defined.

(** C9. [parseCsv] returns for every text: the loop ends and the last cell
    and row are pushed, in or out of quoted mode.  When a quote opens a
    field that no quote closes, the loop ends in quoted mode with the rest
    of the text added to the current cell, which is pushed as the last
    cell of the last row. *)
Theorem unterminated_quote_accepted (pre body : string) :
  noQuote pre = true ->
  noQuote body = true ->
  (forall text : string,
      exists s : St.t,
        scan hasContent text = Some s
        /\ parseCsv text
           = pushRow hasContent (St.rows s) (St.row s ++ [St.cur s]))
  /\ exists s0 : St.t,
      scan hasContent pre = Some s0
      /\ St.inQuotes s0 = false
      /\ scan hasContent (pre ++ quote ++ body)
         = Some (St.mk (St.rows s0) (St.row s0) (St.cur s0 ++ body)
                   (String.length (pre ++ quote ++ body)) true)
      /\ parseCsv (pre ++ quote ++ body)
         = pushRow hasContent (St.rows s0) (St.row s0 ++ [(St.cur s0 ++ body)%string]).
Proof.
  intros Hpre Hbody. split.
  - intros text. destruct (scan_total hasContent text) as (s & Hs & _).
    exists s. split; [assumption|].
    unfold parseCsv, parseWith. now rewrite Hs.
  - destruct (unquoted_run hasContent pre "" (quote ++ body)
                (S (String.length body)) init eq_refl eq_refl Hpre)
      as (s0 & W1 & Ei & Eq & W2).
    cbn [append] in W1, Ei, W2.
    exists s0. split; [exact W1|]. split; [exact Eq|].
    assert (Escan : scan hasContent (pre ++ quote ++ body)
                    = Some (St.mk (St.rows s0) (St.row s0) (St.cur s0 ++ body)
                              (String.length (pre ++ quote ++ body)) true)).
    { unfold scan.
      replace (String.length (pre ++ quote ++ body))
        with (String.length pre + S (String.length body))
        by (rewrite !length_append; simpl; lia).
      rewrite W2.
      assert (H0 : charAt (pre ++ quote ++ body) (St.i s0) = Some QUOTE)
        by (rewrite Ei; apply charAt_app_here).
      rewrite while_unfold by (eapply charAt_some; eassumption).
      assert (Estep : step hasContent (pre ++ quote ++ body) s0 =
                      St.mk (St.rows s0) (St.row s0) (St.cur s0) (St.i s0 + 1) true).
      { destruct s0 as [rs r c k q]; simpl in *; subst q. rewrite H0. reflexivity. }
      rewrite Estep.
      pose proof (inQuotes_run hasContent body (pre ++ quote) "" 0
                    (St.mk (St.rows s0) (St.row s0) (St.cur s0) (St.i s0 + 1) true))
        as R.
      rewrite (doubled_noQuote body Hbody), append_nil_r, Nat.add_0_r in R.
      rewrite append_assoc in R.
      rewrite R; [| simpl; rewrite length_append, Ei; reflexivity | reflexivity].
      cbn [St.i St.inQuotes St.rows St.row St.cur].
      rewrite while_done by (simpl; rewrite !length_append, Ei; simpl; lia).
      f_equal. f_equal. rewrite Ei. lia. }
    split; [exact Escan|].
    unfold parseCsv, parseWith. rewrite Escan. reflexivity.
Qed.

Lemma unterminated_quote_accepted_witness :
  exists s0 : St.t,
    scan hasContent ("a,b" ++ nl ++ "c,") = Some s0
    /\ St.inQuotes s0 = false
    /\ scan hasContent (("a,b" ++ nl ++ "c,") ++ quote ++ ("d," ++ nl ++ "e"))
       = Some (St.mk (St.rows s0) (St.row s0) (St.cur s0 ++ ("d," ++ nl ++ "e"))
                 (String.length (("a,b" ++ nl ++ "c,") ++ quote ++ ("d," ++ nl ++ "e")))
                 true)
    /\ parseCsv (("a,b" ++ nl ++ "c,") ++ quote ++ ("d," ++ nl ++ "e"))
       = pushRow hasContent (St.rows s0)
           (St.row s0 ++ [(St.cur s0 ++ ("d," ++ nl ++ "e"))%string]).
Proof.
  apply (proj2 (unterminated_quote_accepted ("a,b" ++ nl ++ "c,") ("d," ++ nl ++ "e")
                  eq_refl eq_refl)).
Defined.

(** ** [trim]

    [trimStart] is followed along its own recursion, one white space
    character at a time. *)

(** The three ways [trimStart] goes past a white space character, and the
    case in which it stops. *)
Lemma trimStart_1 (c : ascii) (r : string) :
  isWhiteSpace1 c = true -> trimStart (String c r) = trimStart r.
Proof. intros H. rewrite trimStart_equation. now rewrite H. Qed.

Lemma trimStart_2 (c1 c2 : ascii) (r : string) :
  isWhiteSpace1 c1 = false -> isWhiteSpace2 c1 c2 = true ->
  trimStart (String c1 (String c2 r)) = trimStart r.
Proof. intros H1 H2. rewrite trimStart_equation. now rewrite H1, H2. Qed.

Lemma trimStart_3 (c1 c2 c3 : ascii) (r : string) :
  isWhiteSpace1 c1 = false -> isWhiteSpace2 c1 c2 = false ->
  isWhiteSpace3 c1 c2 c3 = true ->
  trimStart (String c1 (String c2 (String c3 r))) = trimStart r.
Proof. intros H1 H2 H3. rewrite trimStart_equation. now rewrite H1, H2, H3. Qed.

Lemma length_trimStart (s : string) : String.length (trimStart s) <= String.length s.
Proof. functional induction (trimStart s); simpl in *; lia. Qed.

Lemma trimStart_idem (s : string) : trimStart (trimStart s) = trimStart s.
Proof.
  functional induction (trimStart s); try assumption; try reflexivity;
    rewrite trimStart_equation;
    repeat match goal with H : _ = false |- _ => rewrite H end; reflexivity.
Qed.

(** White space at the start of [a ++ w], when [a] is nothing but white
    space, ends in [w]. *)
Lemma trimStart_app (a w : string) :
  trimStart a = "" -> trimStart (a ++ w) = trimStart w.
Proof.
  functional induction (trimStart a); intros H; try discriminate H.
  - reflexivity.
  - cbn [append]. rewrite trimStart_1 by assumption. now apply IHs.
  - cbn [append]. rewrite trimStart_2 by assumption. now apply IHs.
  - cbn [append]. rewrite trimStart_3 by assumption. now apply IHs.
Qed.

(** What [trimEnd] takes off is nothing but white space. *)
Lemma trimEnd_split (s : string) :
  exists w, s = (trimEnd s ++ w)%string /\ trimStart w = "".
Proof.
  induction s as [|c s (w & E & Hw)].
  - exists "". split; reflexivity.
  - cbn [trimEnd]. destruct (String.eqb (trimStart (String c s)) "") eqn:T.
    + exists (String c s). split; [reflexivity|]. now apply String.eqb_eq.
    + exists w. split; [|assumption]. cbn [append]. now rewrite <- E.
Qed.

Lemma trimEnd_idem (s : string) : trimEnd (trimEnd s) = trimEnd s.
Proof.
  induction s as [|c s IH]; [reflexivity|].
  cbn [trimEnd]. destruct (String.eqb (trimStart (String c s)) "") eqn:T; [reflexivity|].
  cbn [trimEnd]. rewrite IH.
  destruct (String.eqb (trimStart (String c (trimEnd s))) "") eqn:T'; [|reflexivity].
  exfalso. apply String.eqb_eq in T'. apply String.eqb_neq in T. apply T.
  destruct (trimEnd_split s) as (w & E & Hw).
  rewrite E at 1.
  change (String c (trimEnd s ++ w)) with (String c (trimEnd s) ++ w)%string.
  now rewrite trimStart_app.
Qed.

(** A string that does not begin with white space still does not when its
    end is trimmed. *)
Lemma trimStart_trimEnd (s : string) :
  trimStart s = s -> trimStart (trimEnd s) = trimEnd s.
Proof.
  intros H. destruct (trimEnd_split s) as (w & E & Hw).
  remember (trimEnd s) as p eqn:Ep. clear Ep.
  assert (L : String.length (trimStart s) = String.length s) by now rewrite H.
  rewrite E in L. clear H E.
  functional induction (trimStart p); try reflexivity; exfalso; cbn [append] in L.
  - rewrite trimStart_1 in L by assumption.
    pose proof (length_trimStart (r1 ++ w)). simpl in L. lia.
  - rewrite trimStart_2 in L by assumption.
    pose proof (length_trimStart (r2 ++ w)). simpl in L. lia.
  - rewrite trimStart_3 in L by assumption.
    pose proof (length_trimStart (r3 ++ w)). simpl in L. lia.
Qed.

Lemma trim_idem (s : string) : trim (trim s) = trim s.
Proof.
  unfold trim.
  rewrite (trimStart_trimEnd (trimStart s)) by apply trimStart_idem.
  apply trimEnd_idem.
Qed.

(** White space is made of bytes that are white space themselves or are
    not ASCII. *)
Lemma isWhiteSpace2_high (c1 c2 : ascii) :
  isWhiteSpace2 c1 c2 = true -> 128 <= nat_of_ascii c1 /\ 128 <= nat_of_ascii c2.
Proof.
  unfold isWhiteSpace2. rewrite andb_true_iff, !Nat.eqb_eq. lia.
Qed.

Lemma isWhiteSpace3_high (c1 c2 c3 : ascii) :
  isWhiteSpace3 c1 c2 c3 = true ->
  128 <= nat_of_ascii c1 /\ 128 <= nat_of_ascii c2 /\ 128 <= nat_of_ascii c3.
Proof.
  unfold isWhiteSpace3. cbv zeta.
  rewrite !orb_true_iff, !andb_true_iff, !orb_true_iff, !andb_true_iff,
    !Nat.eqb_eq, !Nat.leb_le. lia.
Qed.

Lemma eqb_high (x c : ascii) :
  128 <= nat_of_ascii x -> nat_of_ascii c < 128 -> Ascii.eqb x c = false.
Proof.
  intros Hx Hc. apply Ascii.eqb_neq. intros ->. lia.
Qed.

Lemma eqb_white (x c : ascii) :
  isWhiteSpace1 x = true -> isWhiteSpace1 c = false -> Ascii.eqb x c = false.
Proof. intros Hx Hc. apply Ascii.eqb_neq. intros ->. congruence. Qed.

(** Trimming takes no ASCII character away that is not white space. *)
Lemma hasChar_trimStart (c : ascii) (s : string) :
  nat_of_ascii c < 128 -> isWhiteSpace1 c = false ->
  hasChar c (trimStart s) = hasChar c s.
Proof.
  intros Hc Hw. functional induction (trimStart s); try reflexivity.
  - cbn [hasChar]. now rewrite IHs0, (eqb_white c1 c).
  - cbn [hasChar]. apply isWhiteSpace2_high in e2 as [H1 H2].
    now rewrite IHs0, !eqb_high.
  - cbn [hasChar]. apply isWhiteSpace3_high in e4 as (H1 & H2 & H3).
    now rewrite IHs0, !eqb_high.
Qed.

Lemma hasChar_app (c : ascii) (a b : string) :
  hasChar c (a ++ b) = hasChar c a || hasChar c b.
Proof. induction a as [|x a IH]; simpl; [reflexivity | now rewrite IH, orb_assoc]. Qed.

Lemma hasChar_trimEnd (c : ascii) (s : string) :
  nat_of_ascii c < 128 -> isWhiteSpace1 c = false ->
  hasChar c (trimEnd s) = hasChar c s.
Proof.
  intros Hc Hw. destruct (trimEnd_split s) as (w & E & Hwhite).
  rewrite E at 2. rewrite hasChar_app.
  rewrite <- (hasChar_trimStart c w Hc Hw), Hwhite. simpl. now rewrite orb_false_r.
Qed.

Lemma hasChar_trim (c : ascii) (s : string) :
  nat_of_ascii c < 128 -> isWhiteSpace1 c = false ->
  hasChar c (trim s) = hasChar c s.
Proof. intros Hc Hw. unfold trim. now rewrite hasChar_trimEnd, hasChar_trimStart. Qed.

Lemma trimStart_plain (c : ascii) (r : string) :
  isPlain c = true -> trimStart (String c r) = String c r.
Proof.
  unfold isPlain. intros H. apply andb_prop in H as [Hc Hw].
  apply Nat.ltb_lt in Hc. apply negb_true_iff in Hw.
  rewrite trimStart_equation, Hw.
  destruct r as [|c2 r]; [reflexivity|].
  destruct (isWhiteSpace2 c c2) eqn:E2; [apply isWhiteSpace2_high in E2; lia|].
  destruct r as [|c3 r]; [reflexivity|].
  destruct (isWhiteSpace3 c c2 c3) eqn:E3; [apply isWhiteSpace3_high in E3; lia|].
  reflexivity.
Qed.

(** A string of ASCII characters without white space is its own trim. *)
Lemma trim_plain (s : string) : allChars isPlain s = true -> trim s = s.
Proof.
  intros H. unfold trim.
  assert (E : trimStart s = s).
  { destruct s as [|c s]; [reflexivity|]. simpl in H.
    apply andb_prop in H as [Hc _]. now apply trimStart_plain. }
  rewrite E. clear E.
  induction s as [|c s IH]; [reflexivity|].
  simpl in H. apply andb_prop in H as [Hc Hs].
  cbn [trimEnd]. rewrite (trimStart_plain c s Hc). cbn [String.eqb]. now rewrite IH.
Qed.

(** A string of one-byte white space trims to nothing. *)
Lemma trim_white (s : string) : allChars isWhiteSpace1 s = true -> trim s = "".
Proof.
  intros H. unfold trim.
  assert (E : trimStart s = "").
  { induction s as [|c s IH]; [reflexivity|]. simpl in H.
    apply andb_prop in H as [Hc Hs]. rewrite trimStart_1 by assumption. now apply IH. }
  now rewrite E.
Qed.

Lemma allChars_impl (f g : ascii -> bool) (s : string) :
  (forall c, f c = true -> g c = true) ->
  allChars f s = true -> allChars g s = true.
Proof.
  intros Hfg. induction s as [|c s IH]; simpl; [reflexivity|].
  intros H. apply andb_prop in H as [Hc Hs].
  now rewrite (Hfg c Hc), (IH Hs).
Qed.

Lemma allChars_app (f : ascii -> bool) (a b : string) :
  allChars f (a ++ b) = allChars f a && allChars f b.
Proof.
  induction a as [|c a IH]; simpl; [reflexivity|].
  now rewrite IH, andb_assoc.
Qed.

(** What is left of a string after trimming has the characters of the
    string. *)
Lemma allChars_trimStart (f : ascii -> bool) (s : string) :
  allChars f s = true -> allChars f (trimStart s) = true.
Proof.
  functional induction (trimStart s); intros H; try assumption; apply IHs0;
    cbn [allChars] in H;
    repeat match goal with
           | H : _ && _ = true |- _ => apply andb_prop in H as [_ H]
           end; exact H.
Qed.

Lemma allChars_trimEnd (f : ascii -> bool) (s : string) :
  allChars f s = true -> allChars f (trimEnd s) = true.
Proof.
  induction s as [|c s IH]; [reflexivity|]. intros H.
  cbn [trimEnd]. destruct (String.eqb (trimStart (String c s)) ""); [reflexivity|].
  cbn [allChars] in *. apply andb_prop in H as [Hc Hs]. now rewrite Hc, IH.
Qed.

Lemma allChars_trim (f : ascii -> bool) (s : string) :
  allChars f s = true -> allChars f (trim s) = true.
Proof. intros H. unfold trim. now apply allChars_trimEnd, allChars_trimStart. Qed.

Lemma isAscii_allChars (s : string) :
  isAscii s = allChars (fun c => nat_of_ascii c <? 128) s.
Proof. induction s as [|c s IH]; simpl; [reflexivity | now rewrite IH]. Qed.

Lemma isAscii_trim (s : string) : isAscii s = true -> isAscii (trim s) = true.
Proof. rewrite !isAscii_allChars. apply allChars_trim. Qed.

Lemma isAscii_app (a b : string) : isAscii (a ++ b) = isAscii a && isAscii b.
Proof. rewrite !isAscii_allChars. apply allChars_app. Qed.

(** On an ASCII string, white space is one byte at a time. *)
Lemma trimStart_ascii (c : ascii) (r : string) :
  nat_of_ascii c < 128 ->
  trimStart (String c r) = if isWhiteSpace1 c then trimStart r else String c r.
Proof.
  intros Hc. destruct (isWhiteSpace1 c) eqn:W.
  - now apply trimStart_1.
  - apply trimStart_plain. unfold isPlain. rewrite W.
    now rewrite (proj2 (Nat.ltb_lt _ _) Hc).
Qed.

(** ** The case conversions on ASCII strings *)

Ltac by_cases_on_char c :=
  destruct c as [[] [] [] [] [] [] [] []]; reflexivity.

Lemma isWhiteSpace1_asciiUpper (c : ascii) :
  isWhiteSpace1 (asciiUpper c) = isWhiteSpace1 c.
Proof. by_cases_on_char c. Qed.

Lemma isWhiteSpace1_asciiLower (c : ascii) :
  isWhiteSpace1 (asciiLower c) = isWhiteSpace1 c.
Proof. by_cases_on_char c. Qed.

Lemma asciiUpper_ascii (c : ascii) :
  (nat_of_ascii (asciiUpper c) <? 128) = (nat_of_ascii c <? 128).
Proof. by_cases_on_char c. Qed.

Lemma asciiLower_ascii (c : ascii) :
  (nat_of_ascii (asciiLower c) <? 128) = (nat_of_ascii c <? 128).
Proof. by_cases_on_char c. Qed.

Lemma asciiUpper_asciiUpper (c : ascii) : asciiUpper (asciiUpper c) = asciiUpper c.
Proof. by_cases_on_char c. Qed.

Lemma asciiUpper_asciiLower (c : ascii) : asciiUpper (asciiLower c) = asciiUpper c.
Proof. by_cases_on_char c. Qed.

Lemma asciiLower_asciiLower (c : ascii) : asciiLower (asciiLower c) = asciiLower c.
Proof. by_cases_on_char c. Qed.

Lemma mapChars_mapChars (f g h : ascii -> ascii) (s : string) :
  (forall c, f (g c) = h c) ->
  mapChars f (mapChars g s) = mapChars h s.
Proof.
  intros H. induction s as [|c s IH]; simpl; [reflexivity|].
  now rewrite H, IH.
Qed.

Lemma mapChars_empty (f : ascii -> ascii) (s : string) :
  mapChars f s = "" <-> s = "".
Proof. destruct s; simpl; split; congruence. Qed.

Lemma mapChars_app (f : ascii -> ascii) (a b : string) :
  mapChars f (a ++ b) = (mapChars f a ++ mapChars f b)%string.
Proof. induction a as [|c a IH]; simpl; [reflexivity | now rewrite IH]. Qed.

Section TrimMap.

Variable f : ascii -> ascii.
Hypothesis f_white : forall c, isWhiteSpace1 (f c) = isWhiteSpace1 c.
Hypothesis f_ascii : forall c, (nat_of_ascii (f c) <? 128) = (nat_of_ascii c <? 128).

Lemma isAscii_mapChars (s : string) : isAscii (mapChars f s) = isAscii s.
Proof.
  induction s as [|c s IH]; [reflexivity|].
  change (mapChars f (String c s)) with (String (f c) (mapChars f s)).
  cbn [isAscii]. now rewrite f_ascii, IH.
Qed.

Lemma trimStart_mapChars (s : string) :
  isAscii s = true -> trimStart (mapChars f s) = mapChars f (trimStart s).
Proof.
  induction s as [|c s IH]; [reflexivity|]. intros H.
  cbn [isAscii] in H. apply andb_prop in H as [Hc Hs].
  change (mapChars f (String c s)) with (String (f c) (mapChars f s)).
  rewrite !trimStart_ascii
    by (apply Nat.ltb_lt; (assumption || now rewrite f_ascii)).
  rewrite f_white. destruct (isWhiteSpace1 c); [now apply IH | reflexivity].
Qed.

Lemma trimEnd_mapChars (s : string) :
  isAscii s = true -> trimEnd (mapChars f s) = mapChars f (trimEnd s).
Proof.
  induction s as [|c s IH]; [reflexivity|]. intros H.
  pose proof (trimStart_mapChars (String c s) H) as E.
  cbn [isAscii] in H. apply andb_prop in H as [Hc Hs].
  change (mapChars f (String c s)) with (String (f c) (mapChars f s)) in *.
  cbn [trimEnd]. rewrite E.
  destruct (trimStart (String c s)) as [|x t] eqn:T.
  - reflexivity.
  - change (mapChars f (String x t)) with (String (f x) (mapChars f t)).
    cbn [String.eqb]. rewrite (IH Hs). reflexivity.
Qed.

Lemma trim_mapChars (s : string) :
  isAscii s = true -> trim (mapChars f s) = mapChars f (trim s).
Proof.
  intros H. unfold trim. rewrite trimStart_mapChars by assumption.
  apply trimEnd_mapChars. rewrite isAscii_allChars in *. now apply allChars_trimStart.
Qed.

End TrimMap.

Lemma trim_asciiUpperCase (s : string) :
  isAscii s = true -> trim (asciiUpperCase s) = asciiUpperCase (trim s).
Proof. apply trim_mapChars; [apply isWhiteSpace1_asciiUpper | apply asciiUpper_ascii]. Qed.

Lemma trim_asciiLowerCase (s : string) :
  isAscii s = true -> trim (asciiLowerCase s) = asciiLowerCase (trim s).
Proof. apply trim_mapChars; [apply isWhiteSpace1_asciiLower | apply asciiLower_ascii]. Qed.

Lemma isAscii_asciiUpperCase (s : string) : isAscii (asciiUpperCase s) = isAscii s.
Proof. apply isAscii_mapChars, asciiUpper_ascii. Qed.

Lemma isAscii_asciiLowerCase (s : string) : isAscii (asciiLowerCase s) = isAscii s.
Proof. apply isAscii_mapChars, asciiLower_ascii. Qed.

(** ** [normBool] *)

(** Every [trim] in the goal is applied to a given string: each is
    evaluated. *)
Ltac evaluate_trim :=
  repeat match goal with
         | |- context [trim ?x] =>
             let y := eval vm_compute in (trim x) in
             progress change (trim x) with y
         end.

Lemma normBool_In (v : string) :
  normBool v = true <-> In (toUpperCase (trim v)) truthyTokens.
Proof.
  unfold normBool, truthyTokens. cbv zeta.
  rewrite !orb_true_iff, !String.eqb_eq. simpl.
  intuition congruence.
Qed.

Lemma normBool_trim (v : string) : normBool (trim v) = normBool v.
Proof. unfold normBool. now rewrite trim_idem. Qed.

(** On an ASCII value the letters of the two cases are taken for one
    another, and no other character is. *)
Lemma normBool_ascii (v : string) :
  isAscii v = true ->
  (normBool v = true <-> In (asciiUpperCase (trim v)) truthyTokens).
Proof.
  intros H. rewrite normBool_In.
  now rewrite toUpperCase_ascii by (now apply isAscii_trim).
Qed.

Lemma normBool_case (v : string) :
  isAscii v = true ->
  normBool (asciiUpperCase v) = normBool v /\ normBool (asciiLowerCase v) = normBool v.
Proof.
  intros H. unfold normBool.
  rewrite trim_asciiUpperCase, trim_asciiLowerCase by assumption.
  pose proof (isAscii_trim v H) as Ht.
  rewrite !toUpperCase_ascii
    by (assumption || now rewrite ?isAscii_asciiUpperCase, ?isAscii_asciiLowerCase).
  unfold asciiUpperCase, asciiLowerCase.
  rewrite (mapChars_mapChars asciiUpper asciiUpper asciiUpper)
    by apply asciiUpper_asciiUpper.
  rewrite (mapChars_mapChars asciiUpper asciiLower asciiUpper)
    by apply asciiUpper_asciiLower.
  split; reflexivity.
Qed.

(** C7. [normBool(v)] is true exactly when [v], trimmed and in upper case,
    is one of A, Y, YES, TRUE and 1; white space around the value, of any
    kind, does not matter.  On an ASCII value upper case is that of the 26
    letters, so the value is accepted in either case and in mixed case.
    The empty string, n, maybe and 0 give false.  [main] computes both
    [host] and [removed] with it. *)
Theorem normBool_tokens :
  (forall v : string,
      normBool v = true <-> In (toUpperCase (trim v)) truthyTokens)
  /\ (forall v : string, normBool (trim v) = normBool v)
  /\ (forall v : string,
         isAscii v = true ->
         (normBool v = true <-> In (asciiUpperCase (trim v)) truthyTokens)
         /\ normBool (asciiUpperCase v) = normBool v
         /\ normBool (asciiLowerCase v) = normBool v)
  /\ map normBool ["a"; "A"; "yes"; "TRUE"; "1"; "y"; " Yes "; "tRuE";
                   (NBSP ++ "A" ++ NBSP)%string; (BOM ++ "yes")%string]
     = [true; true; true; true; true; true; true; true; true; true]
  /\ map normBool ["n"; ""; "maybe"; "0"; "N"; "ano"; "yes!"; "t"; "y e s"; NBSP]
     = [false; false; false; false; false; false; false; false; false; false]
  /\ (forall (idx : object) (r : list string) (rowIndex : nat) (con : console),
         match fst (showOf idx r rowIndex con) with
         | Some x => host x = normBool (get idx r "Hostovacka")
                     /\ removed x = normBool (get idx r "StazenoZR")
         | None => True
         end).
Proof.
  split; [exact normBool_In|]. split; [exact normBool_trim|].
  split; [|split; [|split]].
  - intros v H. split; [now apply normBool_ascii | now apply normBool_case].
  - unfold normBool. cbn [map]. evaluate_trim.
    rewrite !toUpperCase_ascii by reflexivity. reflexivity.
  - unfold normBool. cbn [map]. evaluate_trim.
    rewrite !toUpperCase_ascii by reflexivity. reflexivity.
  - intros idx r rowIndex con. unfold showOf.
    destruct (String.eqb (get idx r "Datum") "" || String.eqb (get idx r "Nazev") "");
      simpl; [exact I | split; reflexivity].
Qed.

(** ** [splitGenres] *)

Section Split.

Variable isDelim : ascii -> bool.

(** A string without delimiter is one piece. *)
Lemma split_whole (p : string) :
  allChars (fun c => negb (isDelim c)) p = true -> split isDelim p = [p].
Proof.
  induction p as [|c p IH]; simpl; [reflexivity|].
  intros H. apply andb_prop in H as [Hc Hp].
  apply negb_true_iff in Hc. rewrite Hc, (IH Hp). reflexivity.
Qed.

(** The first piece ends at the first delimiter. *)
Lemma split_at_delim (p : string) (d : ascii) (t : string) :
  allChars (fun c => negb (isDelim c)) p = true ->
  isDelim d = true ->
  split isDelim (p ++ String d t) = p :: split isDelim t.
Proof.
  intros Hp Hd. induction p as [|c p IH]; simpl.
  - now rewrite Hd.
  - simpl in Hp. apply andb_prop in Hp as [Hc Hp].
    apply negb_true_iff in Hc. rewrite Hc, (IH Hp). reflexivity.
Qed.

(** [split] undoes [glue]: it cuts at each delimiter and nowhere else. *)
Lemma split_glue (rest : list (ascii * string)) (p : string) :
  Forall (fun q => allChars (fun c => negb (isDelim c)) q = true)
    (p :: map snd rest) ->
  Forall (fun d => isDelim d = true) (map fst rest) ->
  split isDelim (glue p rest) = p :: map snd rest.
Proof.
  revert p; induction rest as [|[d q] rest IH]; intros p Hp Hd; simpl.
  - apply split_whole. now inversion Hp.
  - inversion Hp as [|? ? Hp1 Hp2]; subst.
    inversion Hd as [|? ? Hd1 Hd2]; subst. simpl in *.
    rewrite split_at_delim by assumption.
    now rewrite IH.
Qed.

(** Every string is such a [glue], in one way. *)
Lemma glue_exists (s : string) :
  exists (p : string) (rest : list (ascii * string)),
    s = glue p rest
    /\ Forall (fun q => allChars (fun c => negb (isDelim c)) q = true)
         (p :: map snd rest)
    /\ Forall (fun d => isDelim d = true) (map fst rest).
Proof.
  induction s as [|c s (p & rest & E & Hp & Hd)].
  - exists "", []. repeat constructor.
  - destruct (isDelim c) eqn:Hc.
    + exists "", ((c, p) :: rest). subst s. simpl.
      repeat split; [| constructor; assumption].
      constructor; [reflexivity | assumption].
    + exists (String c p), rest. subst s.
      repeat split; [destruct rest as [|[d q] rest]; reflexivity | | assumption].
      inversion Hp; subst. constructor; [|assumption].
      simpl. now rewrite Hc.
Qed.

End Split.

Lemma trim_glue_empty (v p : string) (rest : list (ascii * string)) :
  trim v = glue p rest -> trim v = "" -> p = "" /\ rest = [].
Proof.
  intros E H. rewrite E in H. destruct rest as [|[d q] rest]; simpl in H.
  - now split.
  - destruct p; discriminate.
Qed.

Lemma isGenreDelim_iff (c : ascii) :
  isGenreDelim c = true <-> c = ";"%char \/ c = "|"%char \/ c = ","%char.
Proof.
  unfold isGenreDelim. rewrite !orb_true_iff, !Ascii.eqb_eq. tauto.
Qed.

Lemma split_pieces (isDelim : ascii -> bool) (s : string) :
  Forall (fun q => allChars (fun c => negb (isDelim c)) q = true) (split isDelim s).
Proof.
  induction s as [|c s IH]; simpl; [repeat constructor|].
  destruct (isDelim c) eqn:E; [constructor; [reflexivity | exact IH]|].
  destruct (split isDelim s) as [|p ps]; [repeat constructor; simpl; now rewrite E|].
  inversion IH; subst. constructor; [simpl; now rewrite E | assumption].
Qed.

Lemma split_allChars (f isDelim : ascii -> bool) (s : string) :
  allChars (fun c => isDelim c || f c) s = true ->
  Forall (fun q => allChars f q = true) (split isDelim s).
Proof.
  induction s as [|c s IH]; simpl; [repeat constructor|].
  intros H. apply andb_prop in H as [Hc Hs]. specialize (IH Hs).
  destruct (isDelim c) eqn:E; [constructor; [reflexivity | exact IH]|].
  simpl in Hc.
  destruct (split isDelim s) as [|p ps]; [repeat constructor; simpl; now rewrite Hc|].
  inversion IH; subst. constructor; [simpl; now rewrite Hc | assumption].
Qed.

(** The pieces that [splitGenres] keeps, before it puts them in lower
    case. *)
Lemma genrePieces (v t : string) :
  In t (filter truthy (map trim (split isGenreDelim (trim v)))) -> isGenrePiece t.
Proof.
  intros Ht. apply filter_In in Ht as [Ht Hne].
  apply in_map_iff in Ht as (piece & <- & Hp).
  unfold truthy in Hne. apply negb_true_iff, String.eqb_neq in Hne.
  split; [exact Hne|]. split; [apply trim_idem|].
  apply allChars_trim.
  pose proof (split_pieces isGenreDelim (trim v)) as H.
  rewrite Forall_forall in H. now apply H.
Qed.

Lemma splitGenres_shape (v : string) :
  Forall (fun g => exists t, g = toLowerCase t /\ isGenrePiece t) (splitGenres v).
Proof.
  unfold splitGenres. destruct (String.eqb (trim v) ""); [constructor|].
  apply Forall_forall. intros g Hg.
  apply in_map_iff in Hg as (t & <- & Ht).
  exists t. split; [reflexivity|]. now apply (genrePieces v).
Qed.

(** On an ASCII value the pieces are ASCII, and lower case is that of the
    26 letters. *)
Lemma splitGenres_ascii (v : string) :
  isAscii v = true ->
  splitGenres v
  = map asciiLowerCase (filter truthy (map trim (split isGenreDelim (trim v)))).
Proof.
  intros H. unfold splitGenres.
  destruct (String.eqb (trim v) "") eqn:E.
  - apply String.eqb_eq in E. now rewrite E.
  - apply map_ext_in. intros t Ht. apply toLowerCase_ascii.
    apply filter_In in Ht as [Ht _].
    apply in_map_iff in Ht as (piece & <- & Hp).
    apply isAscii_trim. rewrite isAscii_allChars.
    pose proof (split_allChars (fun c => nat_of_ascii c <? 128) isGenreDelim (trim v)) as S.
    rewrite Forall_forall in S. apply S; [|exact Hp].
    apply isAscii_trim in H. rewrite isAscii_allChars in H.
    eapply allChars_impl; [|exact H]. intros c Hc. now rewrite Hc, orb_true_r.
Qed.

(** C8. [splitGenres(v)] is empty when [v] trimmed is empty.  Otherwise
    [v] trimmed is cut at each semicolon, vertical bar and comma: when it
    is the pieces [p], [q1], ..., each without such a character, joined by
    such characters, the result is those pieces trimmed, without the ones
    that are then empty, each in lower case, in the same order and with
    repetitions kept.  Every value is such a sequence of pieces.  So each
    genre is the lower case of a piece that is not empty, is trimmed and
    has no delimiter; on an ASCII value lower case is that of the 26
    letters, and a piece with other letters is left to [toLowerCase]. *)
Theorem splitGenres_pieces (v p : string) (rest : list (ascii * string)) :
  trim v = glue p rest ->
  Forall (fun q => allChars (fun c => negb (isGenreDelim c)) q = true)
    (p :: map snd rest) ->
  Forall (fun d => d = ";"%char \/ d = "|"%char \/ d = ","%char) (map fst rest) ->
  splitGenres v
  = map toLowerCase (filter (fun t => negb (String.eqb t "")) (map trim (p :: map snd rest)))
  /\ (trim v = "" -> splitGenres v = [])
  /\ Forall (fun g => exists t, g = toLowerCase t /\ isGenrePiece t) (splitGenres v)
  /\ (isAscii v = true ->
      splitGenres v
      = map asciiLowerCase
          (filter (fun t => negb (String.eqb t "")) (map trim (p :: map snd rest))))
  /\ splitGenres "Drama; comedy,Site Specific" = ["drama"; "comedy"; "site specific"]
  /\ splitGenres "" = []
  /\ splitGenres " opera|Drama;;opera , ,DRAMA " = ["opera"; "drama"; "opera"; "drama"]
  /\ splitGenres (NBSP ++ "Drama;" ++ NBSP ++ ";" ++ BOM ++ "opera ") = ["drama"; "opera"]
  /\ splitGenres (Ccaron ++ "inohra;SITE specific")
     = [toLowerCase (Ccaron ++ "inohra"); "site specific"]
  /\ (forall w : string,
         exists (p' : string) (rest' : list (ascii * string)),
           trim w = glue p' rest'
           /\ Forall (fun q => allChars (fun c => negb (isGenreDelim c)) q = true)
                (p' :: map snd rest')
           /\ Forall (fun d => isGenreDelim d = true) (map fst rest')).
Proof.
  intros E Hp Hd.
  assert (Hd' : Forall (fun d => isGenreDelim d = true) (map fst rest)).
  { eapply Forall_impl; [|exact Hd]. intros d. apply isGenreDelim_iff. }
  assert (Ex : forall w ws, ws = map asciiLowerCase
                                   (filter truthy (map trim (split isGenreDelim (trim w)))) ->
                            trim w <> "" ->
                            Forall (fun t => isAscii t = true)
                              (filter truthy (map trim (split isGenreDelim (trim w)))) ->
                            splitGenres w = ws).
  { intros w ws -> Hw Hall. unfold splitGenres.
    apply String.eqb_neq in Hw. rewrite Hw.
    apply map_ext_in. intros t Ht. apply toLowerCase_ascii.
    rewrite Forall_forall in Hall. now apply Hall. }
  split; [|split; [|split; [apply splitGenres_shape | split]]].
  - unfold splitGenres. destruct (String.eqb (trim v) "") eqn:Hv.
    + apply String.eqb_eq in Hv.
      destruct (trim_glue_empty _ _ _ E Hv) as [-> ->]. reflexivity.
    + rewrite E, split_glue by assumption. reflexivity.
  - intros Hv. unfold splitGenres. apply String.eqb_eq in Hv. now rewrite Hv.
  - intros Ha. rewrite (splitGenres_ascii v Ha), E, split_glue by assumption.
    reflexivity.
  - split; [|split; [reflexivity | split; [|split; [|split]]]].
    + apply Ex; [reflexivity | discriminate | repeat constructor].
    + apply Ex; [reflexivity | discriminate | repeat constructor].
    + apply Ex; [reflexivity | discriminate | repeat constructor].
    + unfold splitGenres. vm_compute.
      now rewrite (toLowerCase_ascii "SITE specific") by reflexivity.
    + intros w. apply glue_exists.
Qed.

(** ** [main]: the header *)

Lemma getProp_setProp (o : object) (k k' : string) (v : nat) :
  getProp (setProp o k v) k' = if String.eqb k k' then Some v else getProp o k'.
Proof.
  induction o as [|[k0 v0] o IH]; simpl.
  - reflexivity.
  - destruct (String.eqb k0 k) eqn:E0; simpl.
    + apply String.eqb_eq in E0; subst k0.
      destruct (String.eqb k k'); reflexivity.
    + destruct (String.eqb k0 k') eqn:E1; [|exact IH].
      apply String.eqb_eq in E1; subst k0.
      now rewrite String.eqb_sym, E0.
Qed.

Lemma getProp_fold_None (es : list (string * nat)) (o : object) (k : string) :
  getProp (fold_left (fun o e => setProp o (fst e) (snd e)) es o) k = None
  <-> getProp o k = None /\ ~ In k (map fst es).
Proof.
  revert o; induction es as [|[k0 v0] es IH]; intros o; simpl.
  - tauto.
  - rewrite IH, getProp_setProp.
    destruct (String.eqb k0 k) eqn:E.
    + apply String.eqb_eq in E. split; [intros [? _]; discriminate | tauto].
    + apply String.eqb_neq in E. tauto.
Qed.

Lemma map_fst_combine_seq (A : Type) (l : list A) (k : nat) :
  map fst (combine l (seq k (List.length l))) = l.
Proof.
  revert k; induction l as [|x l IH]; intros k; simpl; [reflexivity|].
  now rewrite IH.
Qed.

(** A name has no position in [idx] exactly when no header cell is it. *)
Lemma idx_undefined (header : list string) (name : string) :
  getProp (fromEntries (entries header)) name = None <-> ~ In name header.
Proof.
  unfold fromEntries, entries. rewrite getProp_fold_None, map_fst_combine_seq.
  simpl. tauto.
Qed.

Lemma getProp_fold_notin (es : list (string * nat)) (o : object) (name : string) :
  ~ In name (map fst es) ->
  getProp (fold_left (fun o e => setProp o (fst e) (snd e)) es o) name
  = getProp o name.
Proof.
  revert o; induction es as [|[k v] es IH]; intros o Hn; simpl in *; [reflexivity|].
  rewrite IH by tauto. rewrite getProp_setProp.
  destruct (String.eqb k name) eqn:E; [|reflexivity].
  apply String.eqb_eq in E. tauto.
Qed.

Lemma getProp_fold_Some (es : list (string * nat)) (o : object) (name : string) (k : nat) :
  getProp (fold_left (fun o e => setProp o (fst e) (snd e)) es o) name = Some k ->
  getProp o name = Some k \/ In (name, k) es.
Proof.
  revert o; induction es as [|[k0 v0] es IH]; intros o H; simpl in *; [now left|].
  apply IH in H as [H|H]; [|now right; right].
  rewrite getProp_setProp in H.
  destruct (String.eqb k0 name) eqn:E; [|now left].
  apply String.eqb_eq in E. injection H as <-. subst. right. now left.
Qed.

Lemma In_combine_seq (A : Type) (l : list A) (s k : nat) (x : A) :
  In (x, k) (combine l (seq s (List.length l))) <->
  s <= k /\ nth_error l (k - s) = Some x.
Proof.
  revert s; induction l as [|y l IH]; intros s; simpl.
  - split; [tauto | intros [_ H]]. destruct (k - s); discriminate.
  - rewrite IH. split.
    + intros [E | [Hle Hn]].
      * injection E as -> ->. rewrite Nat.sub_diag. simpl. split; [lia | reflexivity].
      * split; [lia|]. replace (k - s) with (S (k - S s)) by lia. exact Hn.
    + intros [Hle Hn]. destruct (Nat.eq_dec s k) as [->|Hne].
      * left. rewrite Nat.sub_diag in Hn. simpl in Hn. congruence.
      * right. split; [lia|].
        replace (k - s) with (S (k - S s)) in Hn by lia. exact Hn.
Qed.

(** The position [idx] has for a name is a position of the header where
    that name stands. *)
Lemma idxOf_position (header : list string) (name : string) (k : nat) :
  getProp (idxOf header) name = Some k -> nth_error header k = Some name.
Proof.
  intros H. apply getProp_fold_Some in H as [H|H]; [discriminate|].
  apply In_combine_seq in H as [_ H]. now rewrite Nat.sub_0_r in H.
Qed.

Lemma idxOf_defined (header : list string) (name : string) :
  In name header -> exists k, getProp (idxOf header) name = Some k.
Proof.
  intros H. destruct (getProp (idxOf header) name) as [k|] eqn:E; [now exists k|].
  apply idx_undefined in E. contradiction.
Qed.

Lemma cell_nth (idx : object) (r : list string) (name : string) (k : nat) :
  getProp idx name = Some k -> cell idx r name = nth k r "".
Proof.
  intros H. unfold cell. rewrite H. clear.
  revert k; induction r as [|c r IH]; intros [|k]; simpl; auto.
Qed.

(** The ways [main] ends before it comes to the rows. *)
Lemma main_empty (fs : filesystem) (csvText now : string) :
  input fs = Contents csvText ->
  List.length (parseCsv csvText) < 2 ->
  main fs now = exit1 [(Error, "CSV is empty (need header + at least one row).")].
Proof. intros Hin H. unfold main. rewrite Hin. apply Nat.ltb_lt in H. now rewrite H. Qed.

Lemma main_missing (fs : filesystem) (csvText now name : string) :
  input fs = Contents csvText ->
  2 <= List.length (parseCsv csvText) ->
  In name required ->
  ~ In name (headerOf csvText) ->
  exists missing : list string,
    In name missing
    /\ incl missing required
    /\ main fs now
       = exit1 [(Error, ("Missing columns in CSV header: " ++ join ", " missing)%string);
                (Error, ("Found header: " ++ join " | " (headerOf csvText))%string)].
Proof.
  intros Hin Hlen Hreq Hnot. unfold main. rewrite Hin.
  apply Nat.ltb_ge in Hlen. rewrite Hlen.
  fold (headerOf csvText). fold (idxOf (headerOf csvText)).
  set (missing := filter _ required).
  assert (Hm : In name missing).
  { apply filter_In. split; [assumption|].
    apply idx_undefined in Hnot. unfold idxOf. now rewrite Hnot. }
  exists missing. split; [exact Hm|]. split.
  - intros x Hx. now apply filter_In in Hx as [Hx _].
  - destruct missing as [|m missing']; [contradiction|]. reflexivity.
Qed.

(** C3. When one of the ten required column names is none of the header's
    trimmed cells, [main] exits with code 1 whatever the rows are: it
    writes no file, and all it prints are error lines, none of them about
    a data row; with two rows or more these are the line of the missing
    names, the name among them, and the line of the header found.  A byte
    order mark before the first name is trimmed away with the white space
    around each name. *)
Theorem missing_column_fatal (fs : filesystem) (csvText now name : string) :
  input fs = Contents csvText ->
  In name ["Datum"; "Nazev"; "Soubor"; "Misto"; "Mesto"; "Hostovacka"; "StazenoZR";
           "Zanry"; "Hodnoceni"; "Komentar"] ->
  ~ In name (map trim (nth 0 (parseCsv csvText) [])) ->
  exitCode (main fs now) = 1
  /\ written (main fs now) = None
  /\ Forall (fun l => fst l = Error) (printed (main fs now))
  /\ (2 <= List.length (parseCsv csvText) ->
      exists missing : list string,
        In name missing
        /\ printed (main fs now)
           = [(Error, ("Missing columns in CSV header: " ++ join ", " missing)%string);
              (Error, ("Found header: "
                       ++ join " | " (map trim (nth 0 (parseCsv csvText) [])))%string)])
  /\ map trim (nth 0 (parseCsv (BOM ++ " Datum ,Nazev" ++ NBSP ++ nl ++ "x,y")) [])
     = ["Datum"; "Nazev"].
Proof.
  intros Hin Hreq Hnot.
  destruct (Nat.lt_ge_cases (List.length (parseCsv csvText)) 2) as [Hlt|Hge].
  - rewrite (main_empty fs csvText now Hin Hlt). cbn [exitCode written printed exit1].
    repeat split; [repeat constructor | lia].
  - destruct (main_missing fs csvText now name Hin Hge Hreq Hnot) as (missing & Hm & _ & E).
    rewrite E. cbn [exitCode written printed exit1].
    repeat split; [repeat constructor|]. intros _. now exists missing.
Qed.

(** ** [main]: the rows *)

Lemma showOf_eq (idx : object) (r : list string) (rowIndex : nat) (con : console) :
  showOf idx r rowIndex con =
  if incomplete idx r then (None, con ++ [(Warn, skipped rowIndex)])
  else (Some (recordOf idx r), con).
Proof. reflexivity. Qed.

Lemma mapRows_eq (idx : object) (rs : list (list string)) (k : nat) (con : console) :
  mapRows idx rs k con =
  (map (fun r => if incomplete idx r then None else Some (recordOf idx r)) rs,
   con ++ map (fun x => (Warn, skipped (snd x)))
            (filter (fun x => incomplete idx (fst x)) (indexed rs k))).
Proof.
  revert k con; induction rs as [|r rs IH]; intros k con.
  - simpl. now rewrite app_nil_r.
  - cbn [mapRows]. rewrite showOf_eq.
    unfold indexed. cbn [List.length seq combine filter fst map].
    destruct (incomplete idx r); rewrite IH; unfold indexed; f_equal.
    now rewrite <- app_assoc.
Qed.

Lemma filterBoolean_map (A B : Type) (f : A -> B) (skip : A -> bool) (l : list A) :
  filterBoolean (map (fun x => if skip x then None else Some (f x)) l)
  = map f (filter (fun x => negb (skip x)) l).
Proof.
  induction l as [|x l IH]; simpl; [reflexivity|].
  destruct (skip x); simpl; now rewrite IH.
Qed.

Lemma normalize_eq (idx : object) (rs : list (list string)) :
  normalize idx rs =
  (map (recordOf idx) (filter (fun r => negb (incomplete idx r)) rs),
   map (fun x => (Warn, skipped (snd x)))
     (filter (fun x => incomplete idx (fst x)) (indexed rs 0))).
Proof.
  unfold normalize. rewrite mapRows_eq, filterBoolean_map. reflexivity.
Qed.

Lemma filter_none (A : Type) (f : A -> bool) (l : list A) :
  (forall x, In x l -> f x = false) -> filter f l = [].
Proof.
  induction l as [|x l IH]; simpl; intros H; [reflexivity|].
  rewrite (H x) by now left. apply IH. intros y Hy. apply H. now right.
Qed.

(** With at least two rows and every required name in the header, [main]
    normalizes the data rows; it writes the document and exits with code
    0 unless [mkdirSync] or [writeFileSync] throws. *)
Lemma main_normalizes (fs : filesystem) (csvText now : string) :
  input fs = Contents csvText ->
  2 <= List.length (parseCsv csvText) ->
  (forall name, In name required -> In name (headerOf csvText)) ->
  let out := normalize (idxOf (headerOf csvText)) (tl (parseCsv csvText)) in
  main fs now =
  if mkdirThrows fs then throws (snd out) "mkdirSync"
  else if writeThrows fs then throws (snd out) "writeFileSync"
  else
    mkRun (snd out ++ [(Log, ("Wrote data/shows.json (" ++
                                decimal (List.length (fst out)) ++ " shows)")%string)])
      (Some ("data/shows.json", mkDocument 1 now "data/shows.csv" (fst out))) 0.
Proof.
  intros Hin Hlen Hall out. unfold main. rewrite Hin.
  apply Nat.ltb_ge in Hlen. rewrite Hlen.
  fold (headerOf csvText). fold (idxOf (headerOf csvText)).
  rewrite filter_none.
  - simpl negb. cbv iota. fold out. destruct out as [shows con]. reflexivity.
  - intros name Hname. specialize (Hall name Hname).
    destruct (idxOf_defined _ _ Hall) as [k E]. now rewrite E.
Qed.

Lemma main_writes (csvText now : string) :
  2 <= List.length (parseCsv csvText) ->
  (forall name, In name required -> In name (headerOf csvText)) ->
  let out := normalize (idxOf (headerOf csvText)) (tl (parseCsv csvText)) in
  main (onDisk csvText) now =
  mkRun (snd out ++ [(Log, ("Wrote data/shows.json (" ++
                              decimal (List.length (fst out)) ++ " shows)")%string)])
    (Some ("data/shows.json", mkDocument 1 now "data/shows.csv" (fst out))) 0.
Proof. intros Hlen Hall. now rewrite (main_normalizes (onDisk csvText) csvText now eq_refl). Qed.

Lemma incomplete_iff (idx : object) (r : list string) :
  incomplete idx r = true <->
  trim (cell idx r "Datum") = "" \/ trim (cell idx r "Nazev") = "".
Proof.
  unfold incomplete, get. now rewrite orb_true_iff, !String.eqb_eq.
Qed.

Lemma append_inj_r (a b c : string) :
  (a ++ c)%string = (b ++ c)%string -> a = b.
Proof.
  revert b; induction a as [|x a IH]; intros [|y b] H; simpl in H.
  - reflexivity.
  - apply (f_equal String.length) in H. simpl in H. rewrite length_append in H. lia.
  - apply (f_equal String.length) in H. simpl in H. rewrite length_append in H. lia.
  - injection H as -> H. f_equal. now apply IH.
Qed.

Lemma to_uint_not_Nil (n : nat) : Nat.to_uint n <> Nil.
Proof.
  intros E. pose proof (DecimalNat.Unsigned.of_to n) as H.
  rewrite E in H. simpl in H. subst n. discriminate E.
Qed.

Lemma decimal_eq (n : nat) : decimal n = NilEmpty.string_of_uint (Nat.to_uint n).
Proof.
  unfold decimal, NilZero.string_of_uint.
  pose proof (to_uint_not_Nil n). now destruct (Nat.to_uint n).
Qed.

Lemma decimal_inj (a b : nat) : decimal a = decimal b -> a = b.
Proof.
  rewrite !decimal_eq. intros H.
  apply (f_equal NilEmpty.uint_of_string) in H.
  rewrite !NilEmpty.usu in H. injection H as H.
  now apply DecimalNat.Unsigned.to_uint_inj.
Qed.

(** The warning names its row: two rows never share one. *)
Lemma skipped_inj (a b : nat) : skipped a = skipped b -> a = b.
Proof.
  unfold skipped. intros H. simpl in H. injection H as H.
  apply append_inj_r, decimal_inj in H. lia.
Qed.

Lemma In_indexed (rs : list (list string)) (s k : nat) (r : list string) :
  In (r, k) (indexed rs s) <-> s <= k /\ nth_error rs (k - s) = Some r.
Proof. apply In_combine_seq. Qed.

(** The date and the title of a record are the trimmed cells of the row
    at the positions of the header where the two names stand. *)
Lemma recordOf_date_title (header r : list string) (kd kt : nat) :
  getProp (idxOf header) "Datum" = Some kd ->
  getProp (idxOf header) "Nazev" = Some kt ->
  date (recordOf (idxOf header) r) = trim (nth kd r "")
  /\ title (recordOf (idxOf header) r) = trim (nth kt r "")
  /\ (incomplete (idxOf header) r = true <->
      trim (nth kd r "") = "" \/ trim (nth kt r "") = "").
Proof.
  intros Hd Ht. rewrite incomplete_iff. unfold recordOf, get. cbn [date title].
  now rewrite (cell_nth _ r _ _ Hd), (cell_nth _ r _ _ Ht).
Qed.

(** C4. The header gives the date and the title their columns, the
    positions [kd] and [kt] where the names Datum and Nazev stand.  Of the
    data rows, [main] leaves out exactly those whose cell in one of the two
    columns is empty once trimmed, a missing cell counting as empty.  The
    rows it keeps give the records, in the order of the rows, with the two
    trimmed cells as date and title, so every record has a date and a
    title; each row it leaves out gives one warning, in the order of the
    rows, and the warning of the row at position [k], counted from 0,
    names row [k + 2], the header being row 1. *)
Theorem normalize_skips_incomplete (header : list string) (kd kt : nat)
  (rs : list (list string)) :
  getProp (idxOf header) "Datum" = Some kd ->
  getProp (idxOf header) "Nazev" = Some kt ->
  let idx := idxOf header in
  let empty (r : list string) := trim (nth kd r "") = "" \/ trim (nth kt r "") = "" in
  nth_error header kd = Some "Datum"
  /\ nth_error header kt = Some "Nazev"
  /\ (forall r : list string,
         date (recordOf idx r) = trim (nth kd r "")
         /\ title (recordOf idx r) = trim (nth kt r "")
         /\ (incomplete idx r = true <-> empty r))
  /\ fst (normalize idx rs)
     = map (recordOf idx) (filter (fun r => negb (incomplete idx r)) rs)
  /\ snd (normalize idx rs)
     = map (fun x => (Warn, skipped (snd x)))
         (filter (fun x => incomplete idx (fst x)) (indexed rs 0))
  /\ (forall r : list string,
         In r rs ->
         (In (recordOf idx r) (fst (normalize idx rs)) <-> ~ empty r))
  /\ (forall (k : nat) (r : list string),
         nth_error rs k = Some r ->
         (In (Warn, skipped k) (snd (normalize idx rs)) <-> empty r))
  /\ Forall (fun x => date x <> "" /\ title x <> "") (fst (normalize idx rs))
  /\ (forall k : nat,
         skipped k
         = ("Row " ++ decimal (k + 2) ++ ": missing Datum or Nazev -> skipped")%string)
  /\ map skipped [0; 1; 9]
     = ["Row 2: missing Datum or Nazev -> skipped";
        "Row 3: missing Datum or Nazev -> skipped";
        "Row 11: missing Datum or Nazev -> skipped"]
  /\ normalize (idxOf ["Nazev"; "Datum"]) [[NBSP; "2024-01-01"]; ["Hamlet"; " "]; ["Faust"]]
     = ([], [(Warn, skipped 0); (Warn, skipped 1); (Warn, skipped 2)]).
Proof.
  intros Hd Ht idx empty. subst idx empty. cbv beta.
  split; [now apply idxOf_position|]. split; [now apply idxOf_position|].
  split; [intros r; now apply recordOf_date_title|].
  assert (Hinc : forall r, incomplete (idxOf header) r = true <->
                           trim (nth kd r "") = "" \/ trim (nth kt r "") = "")
    by (intros r; now apply recordOf_date_title).
  rewrite !normalize_eq. cbn [fst snd].
  split; [reflexivity|]. split; [reflexivity|].
  split; [|split; [|split; [|split; [reflexivity | split; reflexivity]]]].
  - intros r Hr. rewrite <- Hinc, in_map_iff. split.
    + intros (r' & E & Hr'). apply filter_In in Hr' as [_ Hc].
      apply negb_true_iff in Hc.
      assert (Ed : get (idxOf header) r' "Datum" = get (idxOf header) r "Datum")
        by exact (f_equal date E).
      assert (Et : get (idxOf header) r' "Nazev" = get (idxOf header) r "Nazev")
        by exact (f_equal title E).
      unfold incomplete in *. rewrite <- Ed, <- Et, Hc. discriminate.
    + intros Hc. exists r. split; [reflexivity|].
      apply filter_In. split; [assumption|].
      now destruct (incomplete (idxOf header) r).
  - intros k r Hk. rewrite <- Hinc, in_map_iff. split.
    + intros ([r' k'] & E & Hin). apply filter_In in Hin as [Hin Hc].
      cbn [fst snd] in E, Hc. apply (f_equal snd) in E. cbn [snd] in E.
      apply skipped_inj in E. subst k'.
      apply In_indexed in Hin as [_ Hin]. rewrite Nat.sub_0_r in Hin.
      congruence.
    + intros Hc. exists (r, k). split; [reflexivity|].
      apply filter_In. split; [|exact Hc].
      apply In_indexed. rewrite Nat.sub_0_r. split; [lia | assumption].
  - apply Forall_forall. intros x Hx.
    apply in_map_iff in Hx as (r & <- & Hr).
    apply filter_In in Hr as [_ Hc]. apply negb_true_iff in Hc.
    unfold incomplete in Hc. apply orb_false_iff in Hc as [Hd' Ht'].
    apply String.eqb_neq in Hd', Ht'. now split.
Qed.

(** ** End to end *)

(** C1. For the header row and the one data row of the example, the rows
    are parsed and normalized to exactly one record, which has the fields
    the example lists, without a warning; [main] writes a document with
    that record and exits with code 0; the rating is the Number 92,
    that is [6473924464345088 * 2 ^ -46].  A carriage return before each
    newline and a newline after the last row change nothing, and neither
    does a byte order mark before the header. *)
Theorem end_to_end_example (now : string) :
  main (onDisk ("Datum,Nazev,Soubor,Misto,Mesto,Hostovacka,StazenoZR,Zanry,Hodnoceni,Komentar"
              ++ nl
              ++ "2024-01-01,Hamlet,Troupe,Theatre,City,A,N,drama;tragedy,92,Great show")%string)
    now
  = mkRun [(Log, "Wrote data/shows.json (1 shows)")]
      (Some ("data/shows.json",
             mkDocument 1 now "data/shows.csv"
               [mkShow "2024-01-01" "Hamlet" "Troupe" "Theatre" "City" true false
                  ["drama"; "tragedy"] (Some (ofZ 92)) "Great show"]))
      0
  /\ parseCsv ("Datum,Nazev,Soubor,Misto,Mesto,Hostovacka,StazenoZR,Zanry,Hodnoceni,Komentar"
               ++ nl
               ++ "2024-01-01,Hamlet,Troupe,Theatre,City,A,N,drama;tragedy,92,Great show")
     = [["Datum"; "Nazev"; "Soubor"; "Misto"; "Mesto"; "Hostovacka"; "StazenoZR";
         "Zanry"; "Hodnoceni"; "Komentar"];
        ["2024-01-01"; "Hamlet"; "Troupe"; "Theatre"; "City"; "A"; "N";
         "drama;tragedy"; "92"; "Great show"]]
  /\ main (onDisk ("Datum,Nazev,Soubor,Misto,Mesto,Hostovacka,StazenoZR,Zanry,Hodnoceni,Komentar"
                 ++ cr ++ nl
                 ++ "2024-01-01,Hamlet,Troupe,Theatre,City,A,N,drama;tragedy,92,Great show"
                 ++ cr ++ nl)%string)
       now
     = main (onDisk ("Datum,Nazev,Soubor,Misto,Mesto,Hostovacka,StazenoZR,Zanry,Hodnoceni,Komentar"
                   ++ nl
                   ++ "2024-01-01,Hamlet,Troupe,Theatre,City,A,N,drama;tragedy,92,Great show")%string)
         now
  /\ ofZ 92 = S754_finite false 6473924464345088 (-46)
  /\ integerValue (ofZ 92) = Some 92%Z
  /\ main (onDisk (BOM
                   ++ "Datum,Nazev,Soubor,Misto,Mesto,Hostovacka,StazenoZR,Zanry,Hodnoceni,Komentar"
                   ++ nl
                   ++ "2024-01-01,Hamlet,Troupe,Theatre,City,A,N,drama;tragedy,92,Great show")%string)
       now
     = main (onDisk ("Datum,Nazev,Soubor,Misto,Mesto,Hostovacka,StazenoZR,Zanry,Hodnoceni,Komentar"
                   ++ nl
                   ++ "2024-01-01,Hamlet,Troupe,Theatre,City,A,N,drama;tragedy,92,Great show")%string)
         now
  /\ normalize
       (idxOf (headerOf ("Datum,Nazev,Soubor,Misto,Mesto,Hostovacka,StazenoZR,Zanry,Hodnoceni,Komentar"
                         ++ nl
                         ++ "2024-01-01,Hamlet,Troupe,Theatre,City,A,N,drama;tragedy,92,Great show")))
       (tl (parseCsv ("Datum,Nazev,Soubor,Misto,Mesto,Hostovacka,StazenoZR,Zanry,Hodnoceni,Komentar"
                      ++ nl
                      ++ "2024-01-01,Hamlet,Troupe,Theatre,City,A,N,drama;tragedy,92,Great show")))
     = ([mkShow "2024-01-01" "Hamlet" "Troupe" "Theatre" "City" true false
           ["drama"; "tragedy"] (Some (ofZ 92)) "Great show"], []).
Proof.
  assert (E : forall text : string,
             parseCsv text
             = [["Datum"; "Nazev"; "Soubor"; "Misto"; "Mesto"; "Hostovacka"; "StazenoZR";
                 "Zanry"; "Hodnoceni"; "Komentar"];
                ["2024-01-01"; "Hamlet"; "Troupe"; "Theatre"; "City"; "A"; "N";
                 "drama;tragedy"; "92"; "Great show"]] ->
             main (onDisk text) now
             = mkRun [(Log, "Wrote data/shows.json (1 shows)")]
                 (Some ("data/shows.json",
                        mkDocument 1 now "data/shows.csv"
                          [mkShow "2024-01-01" "Hamlet" "Troupe" "Theatre" "City" true
                             false ["drama"; "tragedy"] (Some (ofZ 92)) "Great show"]))
                 0).
  { intros text P. unfold main, onDisk. cbn [input mkdirThrows writeThrows].
    rewrite P. vm_compute.
    rewrite !toUpperCase_ascii, !toLowerCase_ascii by reflexivity.
    reflexivity. }
  split; [apply E; vm_compute; reflexivity|].
  split; [vm_compute; reflexivity|].
  split; [now rewrite !E by (vm_compute; reflexivity)|].
  split; [vm_compute; reflexivity|]. split; [vm_compute; reflexivity|].
  split.
  - etransitivity; [|symmetry; apply E; vm_compute; reflexivity].
    unfold main, onDisk. cbn [input mkdirThrows writeThrows].
    vm_compute.
    rewrite !toUpperCase_ascii, !toLowerCase_ascii by reflexivity.
    reflexivity.
  - vm_compute.
    rewrite !toUpperCase_ascii, !toLowerCase_ascii by reflexivity.
    reflexivity.
Qed.

(** ** [toNumberOrNull] *)

(** [replace] removes the first occurrence of the pattern, wherever it is,
    and nothing when there is none. *)
Lemma replace_absent (p : ascii) (s : string) :
  allChars (fun c => negb (Ascii.eqb c p)) s = true -> replace p s = s.
Proof.
  induction s as [|c s IH]; simpl; [reflexivity|].
  intros H. apply andb_prop in H as [Hc Hs]. apply negb_true_iff in Hc.
  now rewrite Hc, (IH Hs).
Qed.

Lemma replace_first (p : ascii) (a b : string) :
  allChars (fun c => negb (Ascii.eqb c p)) a = true ->
  replace p (a ++ String p b) = (a ++ b)%string.
Proof.
  induction a as [|c a IH]; simpl.
  - now rewrite Ascii.eqb_refl.
  - intros H. apply andb_prop in H as [Hc Hs]. apply negb_true_iff in Hc.
    now rewrite Hc, (IH Hs).
Qed.

Lemma isDigit_cases (c : ascii) :
  isDigit c = true ->
  In c ["0"; "1"; "2"; "3"; "4"; "5"; "6"; "7"; "8"; "9"]%char.
Proof.
  destruct c as [[] [] [] [] [] [] [] []]; intros H; vm_compute in H;
    try discriminate H; simpl; auto 12.
Qed.

Lemma isDigit_plain (c : ascii) :
  isDigit c = true ->
  isPlain c = true /\ Ascii.eqb c PERCENT = false.
Proof.
  intros H. apply isDigit_cases in H. simpl in H.
  repeat (destruct H as [<- | H]; [split; reflexivity|]). contradiction.
Qed.

Lemma allDigits_string_of_uint (d : uint) :
  allChars isDigit (NilEmpty.string_of_uint d) = true.
Proof. induction d; simpl; auto. Qed.

Lemma digits_string_of_uint (d : uint) (acc c : nat) :
  digits 10 (NilEmpty.string_of_uint d) (N.of_nat acc) c
  = (N.of_nat (Nat.of_uint_acc d acc),
     c + String.length (NilEmpty.string_of_uint d), "").
Proof.
  revert acc c; induction d as [|d IH|d IH|d IH|d IH|d IH|d IH|d IH|d IH|d IH|d IH];
    intros acc c;
    cbn [NilEmpty.string_of_uint digits Nat.of_uint_acc String.length];
    [now rewrite Nat.add_0_r|..];
    match goal with
    | |- context [digitOf 10 ?ch] =>
        let v := eval vm_compute in (digitOf 10 ch) in
        change (digitOf 10 ch) with v
    end;
    cbv iota beta;
    match goal with
    | |- digits 10 _ ?a _ = (N.of_nat (Nat.of_uint_acc _ ?acc'), _, _) =>
        replace a with (N.of_nat acc')
          by (rewrite Nat.tail_mul_spec; lia)
    end;
    rewrite IH; f_equal; f_equal; lia.
Qed.

Lemma roundDecimal_integer (n : nat) :
  roundDecimal false (N.of_nat n) 0 = ofZ (Z.of_nat n).
Proof.
  rewrite <- nat_N_Z. destruct (N.of_nat n) as [|p]; [reflexivity|].
  unfold roundDecimal, ofZ, binary_normalize. simpl Z.leb. cbv iota.
  simpl Z.of_N. change (Z.to_pos (10 ^ 0)) with 1%positive.
  now rewrite Pos.mul_1_r.
Qed.

Lemma digit_head (c : ascii) (r : string) :
  isDigit c = true ->
  String.eqb (String c r) "Infinity" = false
  /\ signOf (String c r) = (false, String c r).
Proof.
  intros H. apply isDigit_cases in H. simpl in H.
  repeat (destruct H as [<- | H]; [split; reflexivity|]). contradiction.
Qed.

Lemma nonDecimal_digits (s : string) :
  allChars isDigit s = true -> nonDecimal s = None.
Proof.
  destruct s as [|c [|c' r]]; [reflexivity | |].
  - simpl. rewrite andb_true_r. intros H. apply isDigit_cases in H. simpl in H.
    repeat (destruct H as [<- | H]; [reflexivity|]). contradiction.
  - simpl. intros H. apply andb_prop in H as [Hc H].
    apply andb_prop in H as [Hc' _].
    apply isDigit_cases in Hc, Hc'. simpl in Hc, Hc'.
    repeat (destruct Hc as [<- | Hc];
            [repeat (destruct Hc' as [<- | Hc']; [reflexivity|]); contradiction|]).
    contradiction.
Qed.

(** [Number] on the decimal digits of a natural number. *)
Lemma Number_decimal (n : nat) : Number (decimal n) = ofZ (Z.of_nat n).
Proof.
  rewrite decimal_eq, <- roundDecimal_integer.
  rewrite <- (DecimalNat.Unsigned.of_to n) at 2.
  pose proof (to_uint_not_Nil n) as Hd.
  pose proof (allDigits_string_of_uint (Nat.to_uint n)) as Hall.
  pose proof (digits_string_of_uint (Nat.to_uint n) 0 0) as Hdig.
  change (Nat.of_uint_acc (Nat.to_uint n) 0) with (Nat.of_uint (Nat.to_uint n)) in Hdig.
  change (N.of_nat 0) with 0%N in Hdig.
  set (s := NilEmpty.string_of_uint (Nat.to_uint n)) in *.
  assert (Hs : exists c r, s = String c r).
  { unfold s. destruct (Nat.to_uint n); simpl; eauto. now elim Hd. }
  destruct Hs as (c & r & Es).
  unfold Number.
  rewrite trim_plain
    by (eapply allChars_impl; [|exact Hall];
        intros x Hx; exact (proj1 (isDigit_plain x Hx))).
  rewrite (nonDecimal_digits s Hall).
  assert (Hc : isDigit c = true)
    by (rewrite Es in Hall; simpl in Hall; now apply andb_prop in Hall).
  destruct (digit_head c r Hc) as [Hinf Hsign].
  rewrite <- Es in Hinf, Hsign.
  replace (String.eqb s "") with false by (now rewrite Es).
  rewrite Hsign. unfold unsignedDecimal. rewrite Hinf, Hdig.
  rewrite Es. reflexivity.
Qed.

Lemma decimal_digits (n : nat) : allChars isDigit (decimal n) = true.
Proof. rewrite decimal_eq. apply allDigits_string_of_uint. Qed.

Lemma decimal_not_empty (n : nat) : decimal n <> "".
Proof.
  rewrite decimal_eq. pose proof (to_uint_not_Nil n) as H.
  destruct (Nat.to_uint n); simpl; congruence.
Qed.

Lemma toNumberOrNull_eq (v : string) :
  toNumberOrNull v =
  if String.eqb (replace PERCENT (trim v)) "" then None
  else finiteOrNull (Number (replace PERCENT (trim v))).
Proof. reflexivity. Qed.

(** A natural number in decimal digits, with or without one percent sign
    before or after it, is coerced to that number. *)
Lemma toNumberOrNull_decimal (n : nat) :
  toNumberOrNull (decimal n) = finiteOrNull (ofZ (Z.of_nat n))
  /\ toNumberOrNull (decimal n ++ "%") = finiteOrNull (ofZ (Z.of_nat n))
  /\ toNumberOrNull ("%" ++ decimal n) = finiteOrNull (ofZ (Z.of_nat n)).
Proof.
  pose proof (decimal_digits n) as Hall.
  pose proof (decimal_not_empty n) as Hne.
  assert (Hw : allChars isPlain (decimal n) = true)
    by (eapply allChars_impl; [|exact Hall];
        intros x Hx; exact (proj1 (isDigit_plain x Hx))).
  assert (Hp : allChars (fun c => negb (Ascii.eqb c PERCENT)) (decimal n) = true)
    by (eapply allChars_impl; [|exact Hall];
        intros x Hx; now rewrite (proj2 (isDigit_plain x Hx))).
  apply String.eqb_neq in Hne.
  rewrite !toNumberOrNull_eq. split; [|split].
  - now rewrite (trim_plain _ Hw), (replace_absent _ _ Hp), Hne, Number_decimal.
  - rewrite trim_plain by (rewrite allChars_app, Hw; reflexivity).
    change (decimal n ++ "%")%string with (decimal n ++ String PERCENT "")%string.
    rewrite (replace_first PERCENT (decimal n) "" Hp), append_nil_r.
    now rewrite Hne, Number_decimal.
  - rewrite trim_plain by (simpl; exact Hw).
    simpl replace.
    now rewrite Hne, Number_decimal.
Qed.

(** *** Integers below [2 ^ 53] are Numbers *)

Section Exact.

Local Open Scope Z_scope.

Lemma digits2_pos_bounds (p : positive) :
  2 ^ (Zpos (digits2_pos p) - 1) <= Zpos p < 2 ^ Zpos (digits2_pos p).
Proof.
  induction p as [p IH|p IH|]; cbn [digits2_pos].
  - rewrite Pos2Z.inj_succ.
    replace (Z.succ (Zpos (digits2_pos p)) - 1)
      with (Z.succ (Zpos (digits2_pos p) - 1)) by lia.
    rewrite !Z.pow_succ_r by lia.
    generalize dependent (2 ^ (Zpos (digits2_pos p) - 1)).
    generalize dependent (2 ^ Zpos (digits2_pos p)). intros; lia.
  - rewrite Pos2Z.inj_succ.
    replace (Z.succ (Zpos (digits2_pos p)) - 1)
      with (Z.succ (Zpos (digits2_pos p) - 1)) by lia.
    rewrite !Z.pow_succ_r by lia.
    generalize dependent (2 ^ (Zpos (digits2_pos p) - 1)).
    generalize dependent (2 ^ Zpos (digits2_pos p)). intros; lia.
  - simpl. lia.
Qed.

Lemma digits2_pos_iter_xO (p k : positive) :
  digits2_pos (Pos.iter xO p k) = (digits2_pos p + k)%positive.
Proof.
  induction k as [|k IH] using Pos.peano_ind.
  - simpl. lia.
  - rewrite Pos.iter_succ. cbn [digits2_pos]. rewrite IH. lia.
Qed.

Lemma iter_xO_value (p k : positive) :
  Zpos (Pos.iter xO p k) = Zpos p * 2 ^ Zpos k.
Proof.
  induction k as [|k IH] using Pos.peano_ind.
  - simpl. lia.
  - rewrite Pos.iter_succ, Pos2Z.inj_succ, Z.pow_succ_r by lia.
    change (Zpos (Pos.iter xO p k)~0) with (2 * Zpos (Pos.iter xO p k)).
    rewrite IH. lia.
Qed.

(** A mantissa of 53 bits with an exponent in range is not rounded. *)
Lemma binary_round_aux_exact (s : bool) (m : positive) (e : Z) :
  Zpos (digits2_pos m) = 53 -> -1074 <= e <= 971 ->
  binary_round_aux prec emax s (Zpos m) e loc_Exact = S754_finite s m e.
Proof.
  intros Hd He.
  assert (Hshift : fexp prec emax (Zdigits2 (Zpos m) + e) - e = 0).
  { unfold fexp, emin, prec, emax, Zdigits2. rewrite Hd. lia. }
  unfold binary_round_aux, shr_fexp.
  rewrite Hshift. cbn [shr shr_record_of_loc shr_m loc_of_shr_record round_nearest_even].
  rewrite Hshift. cbn [shr shr_record_of_loc shr_m].
  replace (e <=? emax - prec) with true; [reflexivity|].
  symmetry. apply Z.leb_le. unfold emax, prec. lia.
Qed.

Lemma binary_round_small (s : bool) (p : positive) :
  Zpos p < 2 ^ 53 ->
  exists (m : positive) (k : Z),
    binary_round prec emax s p 0 = S754_finite s m (- k)
    /\ 0 <= k <= 52 /\ Zpos m = Zpos p * 2 ^ k.
Proof.
  intros Hp.
  pose proof (digits2_pos_bounds p) as [Hlo Hhi].
  assert (Hd : Zpos (digits2_pos p) <= 53).
  { destruct (Z_le_gt_dec (Zpos (digits2_pos p)) 53) as [|Hgt]; [assumption|].
    assert (2 ^ 53 <= 2 ^ (Zpos (digits2_pos p) - 1))
      by (apply Z.pow_le_mono_r; lia).
    lia. }
  assert (Hf : fexp prec emax (Zpos (digits2_pos p) + 0) = Zpos (digits2_pos p) - 53).
  { unfold fexp, emin, prec, emax. lia. }
  unfold binary_round. rewrite Hf. unfold shl_align.
  destruct (Zpos (digits2_pos p) - 53 - 0) as [|q|q] eqn:E; [|lia|].
  - exists p, 0. rewrite binary_round_aux_exact by lia.
    repeat split; try lia.
  - exists (Pos.iter xO p q), (Zpos q).
    rewrite binary_round_aux_exact.
    + replace (Zpos (digits2_pos p) - 53) with (- Zpos q) by lia.
      repeat split; try lia. apply iter_xO_value.
    + rewrite digits2_pos_iter_xO. lia.
    + lia.
Qed.

(** The Number of an integer below [2 ^ 53] in absolute value is finite and
    is that integer. *)
Lemma ofZ_exact (z : Z) :
  Z.abs z < 2 ^ 53 -> isFinite (ofZ z) = true /\ integerValue (ofZ z) = Some z.
Proof.
  intros Hz. unfold ofZ, binary_normalize.
  destruct z as [|p|p]; [split; reflexivity| |].
  - destruct (binary_round_small false p Hz) as (m & k & -> & Hk & Hm).
    split; [reflexivity|]. unfold integerValue.
    destruct (Z.eq_dec k 0) as [->|Hk0].
    + simpl. f_equal. lia.
    + replace (0 <=? - k) with false by (symmetry; apply Z.leb_gt; lia).
      rewrite Z.opp_involutive, Hm, Z.mod_mul by lia. simpl Z.eqb. cbv iota.
      now rewrite Z.div_mul by lia.
  - destruct (binary_round_small true p Hz) as (m & k & -> & Hk & Hm).
    split; [reflexivity|]. unfold integerValue.
    destruct (Z.eq_dec k 0) as [->|Hk0].
    + simpl. f_equal. lia.
    + replace (0 <=? - k) with false by (symmetry; apply Z.leb_gt; lia).
      rewrite Z.opp_involutive, Hm, Z.mod_mul by lia. simpl Z.eqb. cbv iota.
      rewrite Z.div_mul by lia. reflexivity.
Qed.

End Exact.

Lemma toNumberOrNull_trim (v : string) : toNumberOrNull (trim v) = toNumberOrNull v.
Proof. unfold toNumberOrNull. now rewrite trim_idem. Qed.

(** The percent sign that is removed is the first one of the trimmed
    value, wherever it stands. *)
Lemma toNumberOrNull_percent (v a b : string) :
  trim v = (a ++ "%" ++ b)%string ->
  allChars (fun c => negb (Ascii.eqb c "%")) a = true ->
  toNumberOrNull v
  = if String.eqb (a ++ b) "" then None else finiteOrNull (Number (a ++ b)).
Proof.
  intros E Ha. rewrite toNumberOrNull_eq, E.
  change (a ++ "%" ++ b)%string with (a ++ String PERCENT b)%string.
  now rewrite (replace_first PERCENT a b Ha).
Qed.

Lemma toNumberOrNull_no_percent (v : string) :
  allChars (fun c => negb (Ascii.eqb c "%")) (trim v) = true ->
  toNumberOrNull v
  = if String.eqb (trim v) "" then None else finiteOrNull (Number (trim v)).
Proof. intros H. now rewrite toNumberOrNull_eq, (replace_absent PERCENT _ H). Qed.

Lemma toNumberOrNull_finite (v : string) (x : number) :
  toNumberOrNull v = Some x -> isFinite x = true.
Proof.
  rewrite toNumberOrNull_eq.
  destruct (String.eqb (replace PERCENT (trim v)) ""); [discriminate|].
  unfold finiteOrNull.
  destruct (isFinite (Number (replace PERCENT (trim v)))) eqn:E; [|discriminate].
  now intros [= <-].
Qed.

(** C2, as the code has it.  [toNumberOrNull(v)] trims [v] and then
    removes the first percent sign of the result, wherever it stands, and
    no other: a value that is [a], a percent sign and [b] once trimmed,
    with no percent sign in [a], is coerced as [a ++ b] is, and a value
    without percent sign as it stands.  If nothing is left the result is
    [null]; otherwise it is [Number] of what is left, or [null] when that
    is not a finite number: the string is no numeric literal, or it is
    [Infinity] or overflows.  White space around the value, of any kind,
    does not matter.  Nothing is clamped: a natural number in decimal
    digits, with or without a percent sign, gives the Number of that
    number, which below [2 ^ 53] is finite and is that very integer, above
    100 or not. *)
Theorem toNumberOrNull_first_percent :
  (forall v : string, toNumberOrNull (trim v) = toNumberOrNull v)
  /\ (forall v a b : string,
         trim v = (a ++ "%" ++ b)%string ->
         allChars (fun c => negb (Ascii.eqb c "%")) a = true ->
         toNumberOrNull v
         = if String.eqb (a ++ b) "" then None else finiteOrNull (Number (a ++ b)))
  /\ (forall v : string,
         allChars (fun c => negb (Ascii.eqb c "%")) (trim v) = true ->
         toNumberOrNull v
         = if String.eqb (trim v) "" then None else finiteOrNull (Number (trim v)))
  /\ (forall (v : string) (x : number),
         toNumberOrNull v = Some x -> isFinite x = true)
  /\ (forall n : nat,
         toNumberOrNull (decimal n) = finiteOrNull (ofZ (Z.of_nat n))
         /\ toNumberOrNull (decimal n ++ "%") = finiteOrNull (ofZ (Z.of_nat n))
         /\ toNumberOrNull ("%" ++ decimal n) = finiteOrNull (ofZ (Z.of_nat n)))
  /\ (forall n : nat,
         (Z.of_nat n < 2 ^ 53)%Z ->
         toNumberOrNull (decimal n) = Some (ofZ (Z.of_nat n))
         /\ toNumberOrNull (decimal n ++ "%") = Some (ofZ (Z.of_nat n))
         /\ integerValue (ofZ (Z.of_nat n)) = Some (Z.of_nat n))
  /\ map toNumberOrNull ["85"; "85%"; " 85 % "; ""; "n/a"; "%"; " "]
     = [Some (ofZ 85); Some (ofZ 85); Some (ofZ 85); None; None; None; None]
  /\ map toNumberOrNull ["5%0"; "%85"; "85%%"; "250"; "-5"; "1e3"; "0x10"]
     = [Some (ofZ 50); Some (ofZ 85); None; Some (ofZ 250); Some (ofZ (-5));
        Some (ofZ 1000); Some (ofZ 16)]
  /\ map toNumberOrNull ["Infinity"; "-Infinity"; "1e999"; "1,5"; "12a"]
     = [None; None; None; None; None]
  /\ map toNumberOrNull [(NBSP ++ "85")%string; (BOM ++ "85%" ++ NBSP)%string;
                         ("85" ++ NBSP ++ "%")%string; NBSP]
     = [Some (ofZ 85); Some (ofZ 85); Some (ofZ 85); None]
  /\ toNumberOrNull "0.5" = Some (S754_finite false 4503599627370496 (-53)).
Proof.
  split; [exact toNumberOrNull_trim|].
  split; [exact toNumberOrNull_percent|].
  split; [exact toNumberOrNull_no_percent|].
  split; [exact toNumberOrNull_finite|].
  split; [exact toNumberOrNull_decimal|].
  split; [|repeat split; vm_compute; reflexivity].
  intros n Hn.
  destruct (toNumberOrNull_decimal n) as (E1 & E2 & _).
  destruct (ofZ_exact (Z.of_nat n)) as [Hfin Hval]; [lia|].
  rewrite E1, E2. unfold finiteOrNull. rewrite Hfin. now repeat split.
Qed.

Lemma toNumberOrNull_first_percent_witness :
  toNumberOrNull " 5%0 "
  = if String.eqb ("5" ++ "0") "" then None else finiteOrNull (Number ("5" ++ "0")).
Proof.
  apply (proj1 (proj2 toNumberOrNull_first_percent) " 5%0 " "5" "0");
    reflexivity.
Defined.

(** On the four values the specification lists, the coercion as it words
    it and [toNumberOrNull] agree. *)
Example toNumberOrNull_claimed_examples :
  map toNumberOrNull_claimed ["85"; "85%"; ""; "n/a"]
  = [Some (ofZ 85); Some (ofZ 85); None; None]
  /\ map toNumberOrNull ["85"; "85%"; ""; "n/a"]
     = map toNumberOrNull_claimed ["85"; "85%"; ""; "n/a"].
Proof. split; reflexivity. Qed.

(** C2, as the specification words it, fails twice.  On [5%0] the percent
    sign is not trailing, so the claimed coercion leaves it and gives
    [null], but [toNumberOrNull] removes it and gives 50.  And [Infinity]
    and [1e999] are numeric literals, which the claimed coercion parses
    and returns as the infinite number, but [toNumberOrNull] gives
    [null]. *)
Lemma toNumberOrNull_not_as_claimed :
  toNumberOrNull "5%0" = Some (ofZ 50)
  /\ toNumberOrNull_claimed "5%0" = None
  /\ toNumberOrNull "Infinity" = None
  /\ toNumberOrNull_claimed "Infinity" = Some (S754_infinity false)
  /\ toNumberOrNull "1e999" = None
  /\ toNumberOrNull_claimed "1e999" = Some (S754_infinity false)
  /\ ~ (forall v : string, toNumberOrNull v = toNumberOrNull_claimed v)
  /\ ~ (forall v : string,
         allChars (fun c => negb (Ascii.eqb c "%")) v = true ->
         toNumberOrNull v = toNumberOrNull_claimed v).
Proof.
  do 6 (split; [vm_compute; reflexivity|]). split.
  - intros H. specialize (H "5%0"). vm_compute in H. discriminate H.
  - intros H. specialize (H "Infinity" eq_refl). vm_compute in H. discriminate H.
Qed.

(** * Further properties *)

(** ** Rows and lines *)

Lemma charAt_app_lt (a rest : string) (k : nat) :
  k < String.length a -> charAt (a ++ rest) k = charAt a k.
Proof.
  revert k; induction a as [|c a IH]; simpl; intros k Hk; [lia|].
  destruct k as [|k]; [reflexivity|]. apply IH. lia.
Qed.

Section Compose.

Variable keep : list string -> bool.

Lemma step_prefix (a rest : string) (s : St.t) :
  St.i s < String.length a ->
  isChar (charAt rest 0) QUOTE = false ->
  step keep (a ++ rest) s = step keep a s.
Proof.
  destruct s as [rs r c k q]; simpl; intros Hk Hrest.
  rewrite (charAt_app_lt a rest k Hk).
  assert (E : isChar (charAt (a ++ rest) (k + 1)) QUOTE
              = isChar (charAt a (k + 1)) QUOTE).
  { destruct (Nat.lt_ge_cases (k + 1) (String.length a)) as [Hlt|Hge].
    - now rewrite charAt_app_lt.
    - assert (Ek : k + 1 = String.length a + 0) by lia.
      rewrite (charAt_ge a (k + 1)) by lia.
      rewrite Ek, charAt_app. exact Hrest. }
  now rewrite E.
Qed.

Lemma while_prefix (a rest : string) (n : nat) (s : St.t) :
  isChar (charAt rest 0) QUOTE = false ->
  St.i s <= String.length a ->
  String.length a - St.i s <= n ->
  exists s',
    while keep n a s = Some s'
    /\ St.i s' = String.length a
    /\ forall (fuel : nat) (r : St.t),
        while keep fuel (a ++ rest) s' = Some r ->
        while keep (n + fuel) (a ++ rest) s = Some r.
Proof.
  intros Hrest. revert s; induction n as [|n IH]; intros s Hle Hn.
  - exists s. split; [apply while_done; lia|]. split; [lia|]. now intros fuel r H.
  - destruct (Nat.lt_ge_cases (St.i s) (String.length a)) as [Hlt|Hge].
    + destruct (step_advance keep a s Hlt) as [Hadv Hbound].
      destruct (IH (step keep a s) Hbound) as (s' & W & Ei & Hext).
      { destruct Hadv as [E|[E _]]; rewrite E; lia. }
      exists s'. rewrite while_unfold by assumption.
      split; [exact W|]. split; [exact Ei|].
      intros fuel r Hr. cbn [Nat.add].
      rewrite while_unfold by (rewrite length_append; lia).
      rewrite step_prefix by assumption. now apply Hext.
    + exists s. split; [apply while_done; lia|]. split; [lia|].
      intros fuel r Hr. rewrite Nat.add_comm. now apply while_more.
Qed.

(** The scan of [a ++ rest] passes through the state in which the scan of
    [a] ends. *)
Lemma scan_prefix (a rest : string) :
  isChar (charAt rest 0) QUOTE = false ->
  exists s,
    scan keep a = Some s
    /\ St.i s = String.length a
    /\ scan keep (a ++ rest) = while keep (String.length rest) (a ++ rest) s.
Proof.
  intros Hrest.
  destruct (while_prefix a rest (String.length a) (init) Hrest) as (s & W & Ei & Hext);
    [simpl; lia | simpl; lia |].
  exists s. split; [exact W|]. split; [exact Ei|].
  destruct (while_terminates keep (a ++ rest) (String.length rest) s) as (r & Hr & _).
  { rewrite length_append. lia. }
  { rewrite length_append. lia. }
  unfold scan. rewrite length_append, Hr. now apply Hext.
Qed.

Lemma pushRow_app (R rs : list (list string)) (r : list string) :
  pushRow keep (R ++ rs) r = R ++ pushRow keep rs r.
Proof. unfold pushRow. destruct (keep r); [now rewrite app_assoc | reflexivity]. Qed.

Lemma step_shift (R : list (list string)) (p t : string) (s : St.t) :
  step keep (p ++ t) (shiftState R p s) = shiftState R p (step keep t s).
Proof.
  destruct s as [rs r c k q]; unfold shiftState; simpl.
  rewrite charAt_app, <- Nat.add_assoc, charAt_app.
  destruct (charAt t k) as [ch|]; [|reflexivity].
  destruct q.
  - destruct (Ascii.eqb ch QUOTE); [|simpl; now rewrite Nat.add_assoc].
    destruct (isChar (charAt t (k + 1)) QUOTE); simpl; f_equal; lia.
  - destruct (Ascii.eqb ch QUOTE); [simpl; f_equal; lia|].
    destruct (Ascii.eqb ch COMMA); [simpl; f_equal; lia|].
    destruct (Ascii.eqb ch LF); [simpl; rewrite pushRow_app; f_equal; lia|].
    destruct (Ascii.eqb ch CR); simpl; f_equal; lia.
Qed.

Lemma while_shift (R : list (list string)) (p t : string) (fuel : nat) (s : St.t) :
  while keep fuel (p ++ t) (shiftState R p s)
  = option_map (shiftState R p) (while keep fuel t s).
Proof.
  revert s; induction fuel as [|fuel IH]; intros s; cbn [while];
    change (St.i (shiftState R p s)) with (String.length p + St.i s);
    rewrite length_append;
    replace (String.length p + St.i s <? String.length p + String.length t)
      with (St.i s <? String.length t)
      by (destruct (Nat.ltb_spec (St.i s) (String.length t));
          symmetry; [apply Nat.ltb_lt | apply Nat.ltb_ge]; lia);
    destruct (St.i s <? String.length t); try reflexivity.
  rewrite step_shift. apply IH.
Qed.

Lemma finish_shift (R : list (list string)) (p : string) (s : St.t) :
  finish keep (shiftState R p s) = R ++ finish keep s.
Proof. unfold finish, shiftState. simpl. apply pushRow_app. Qed.

(** Rows compose across a newline that is outside quotes. *)
Lemma parseWith_lines (a b : string) (sa : St.t) :
  scan keep a = Some sa ->
  St.inQuotes sa = false ->
  parseWith keep (a ++ nl ++ b) = parseWith keep a ++ parseWith keep b.
Proof.
  intros Ha Hq.
  destruct (scan_prefix a (nl ++ b) eq_refl) as (s & Hs & Ei & Escan).
  rewrite Ha in Hs. injection Hs as <-.
  unfold parseWith at 1 2. rewrite Escan, Ha.
  assert (H0 : charAt (a ++ nl ++ b) (St.i sa) = Some LF)
    by (rewrite Ei; apply charAt_app_here).
  cbn [append String.length nl].
  rewrite while_unfold by (eapply charAt_some; exact H0).
  assert (Estep : step keep (a ++ String LF b) sa
                  = shiftState (finish keep sa) (a ++ nl) (init)).
  { destruct sa as [rs r c k q]; simpl in *; subst q. rewrite H0. simpl.
    unfold shiftState, finish. simpl. rewrite app_nil_r.
    f_equal. rewrite length_append, Ei. simpl. lia. }
  rewrite Estep.
  replace (a ++ String LF b)%string with ((a ++ nl) ++ b)%string
    by (rewrite append_assoc; reflexivity).
  rewrite while_shift.
  unfold parseWith. fold (scan keep b).
  destruct (scan_total keep b) as (sb & Hb & _). rewrite Hb. simpl.
  apply finish_shift.
Qed.

End Compose.

Lemma plainTable_shape (q : string) :
  exists c0 cs rest, plainTable q = (c0 :: cs) :: rest.
Proof.
  unfold plainTable.
  destruct (split isLF (dropCR q)) as [|l ls] eqn:E.
  - destruct (dropCR q) as [|c r]; simpl in E; [discriminate|].
    destruct (isLF c); [discriminate|]. destruct (split isLF r); discriminate.
  - simpl. destruct (split isComma l) as [|c0 cs] eqn:E'; [|eauto].
    destruct l as [|c r]; simpl in E'; [discriminate|].
    destruct (isComma c); [discriminate|]. destruct (split isComma r); discriminate.
Qed.

Lemma continue_nil (q : string) : continue [] "" (plainTable q) = plainTable q.
Proof. destruct (plainTable_shape q) as (c0 & cs & rest & ->). reflexivity. Qed.

Lemma plainTable_cons (ch : ascii) (q : string) :
  plainTable (String ch q) =
  if Ascii.eqb ch CR then plainTable q
  else if Ascii.eqb ch LF then [""] :: plainTable q
  else if Ascii.eqb ch COMMA then continue [""] "" (plainTable q)
  else continue [] (String ch "") (plainTable q).
Proof.
  unfold plainTable. cbn [dropCR].
  destruct (Ascii.eqb ch CR) eqn:Ecr; [reflexivity|].
  cbn [split]. unfold isLF at 1.
  destruct (Ascii.eqb ch LF) eqn:Elf; [reflexivity|].
  destruct (plainTable_shape q) as (c0 & cs & rest & E). unfold plainTable in E.
  destruct (split isLF (dropCR q)) as [|l ls]; [discriminate|].
  cbn [map] in E |- *. injection E as E1 E2.
  cbn [split]. unfold isComma at 1.
  destruct (Ascii.eqb ch COMMA) eqn:Eco.
  - rewrite E1. reflexivity.
  - rewrite E1. reflexivity.
Qed.

Lemma plain_run (q p : string) (s : St.t) :
  St.i s = String.length p ->
  St.inQuotes s = false ->
  noQuote q = true ->
  exists s',
    (forall fuel, while (fun _ => true) (String.length q + fuel) (p ++ q) s
                  = while (fun _ => true) fuel (p ++ q) s')
    /\ St.i s' = String.length (p ++ q)
    /\ St.inQuotes s' = false
    /\ finish (fun _ => true) s'
       = St.rows s ++ continue (St.row s) (St.cur s) (plainTable q).
Proof.
  revert p s; induction q as [|ch q IH]; intros p s Hi Hq Hnq.
  - exists s. rewrite append_nil_r. repeat split; try assumption.
    unfold finish, pushRow. simpl. now rewrite append_nil_r.
  - simpl in Hnq. apply andb_prop in Hnq as [Hc Hnq].
    apply negb_true_iff in Hc.
    assert (H0 : charAt (p ++ String ch q) (St.i s) = Some ch)
      by (rewrite Hi; apply charAt_app_here).
    assert (Et : (p ++ String ch q)%string = ((p ++ String ch "") ++ q)%string)
      by (rewrite append_assoc; reflexivity).
    assert (El : String.length (p ++ String ch "") = St.i s + 1)
      by (rewrite length_append, Hi; reflexivity).
    destruct s as [rs r c k qf]. cbn [St.i St.inQuotes St.rows St.row St.cur] in *.
    subst qf.
    assert (Estep : step (fun _ => true) (p ++ String ch q)
                      (St.mk rs r c k false)
                    = if Ascii.eqb ch COMMA then St.mk rs (r ++ [c]) "" (k + 1) false
                      else if Ascii.eqb ch LF then St.mk (rs ++ [r ++ [c]]) [] "" (k + 1) false
                      else if Ascii.eqb ch CR then St.mk rs r c (k + 1) false
                      else St.mk rs r (c ++ String ch "") (k + 1) false).
    { cbn [step]. rewrite H0, Hc. reflexivity. }
    rewrite plainTable_cons.
    destruct (Ascii.eqb ch COMMA) eqn:Eco;
      [|destruct (Ascii.eqb ch LF) eqn:Elf; [|destruct (Ascii.eqb ch CR) eqn:Ecr]].
    + assert (Ecr : Ascii.eqb ch CR = false)
        by (apply Ascii.eqb_eq in Eco; subst ch; reflexivity).
      assert (Elf : Ascii.eqb ch LF = false)
        by (apply Ascii.eqb_eq in Eco; subst ch; reflexivity).
      rewrite Ecr, Elf.
      destruct (IH (p ++ String ch "")%string (St.mk rs (r ++ [c]) "" (k + 1) false))
        as (s' & W & Ei & Eq & Ef); [cbn; lia | reflexivity | assumption |].
      exists s'. rewrite Et. repeat split; try assumption.
      * intros fuel. cbn [String.length Nat.add].
        rewrite while_unfold by (cbn [St.i]; rewrite length_append, El; lia).
        rewrite <- Et, Estep, Et. apply W.
      * rewrite Ef. cbn [St.rows St.row St.cur]. f_equal.
        destruct (plainTable_shape q) as (c0 & cs & rest & ->). simpl.
        rewrite append_nil_r, <- app_assoc. reflexivity.
    + assert (Ecr : Ascii.eqb ch CR = false)
        by (apply Ascii.eqb_eq in Elf; subst ch; reflexivity).
      rewrite Ecr.
      destruct (IH (p ++ String ch "")%string (St.mk (rs ++ [r ++ [c]]) [] "" (k + 1) false))
        as (s' & W & Ei & Eq & Ef); [cbn; lia | reflexivity | assumption |].
      exists s'. rewrite Et. repeat split; try assumption.
      * intros fuel. cbn [String.length Nat.add].
        rewrite while_unfold by (cbn [St.i]; rewrite length_append, El; lia).
        rewrite <- Et, Estep, Et. apply W.
      * rewrite Ef. cbn [St.rows St.row St.cur].
        rewrite continue_nil, <- app_assoc. simpl. now rewrite append_nil_r.
    + destruct (IH (p ++ String ch "")%string (St.mk rs r c (k + 1) false))
        as (s' & W & Ei & Eq & Ef); [cbn; lia | reflexivity | assumption |].
      exists s'. rewrite Et. repeat split; try assumption.
      intros fuel. cbn [String.length Nat.add].
      rewrite while_unfold by (cbn [St.i]; rewrite length_append, El; lia).
      rewrite <- Et, Estep, Et. apply W.
    + destruct (IH (p ++ String ch "")%string
                  (St.mk rs r (c ++ String ch "") (k + 1) false))
        as (s' & W & Ei & Eq & Ef); [cbn; lia | reflexivity | assumption |].
      exists s'. rewrite Et. repeat split; try assumption.
      * intros fuel. cbn [String.length Nat.add].
        rewrite while_unfold by (cbn [St.i]; rewrite length_append, El; lia).
        rewrite <- Et, Estep, Et. apply W.
      * rewrite Ef. cbn [St.rows St.row St.cur]. f_equal.
        destruct (plainTable_shape q) as (c0 & cs & rest & ->). simpl.
        rewrite append_assoc. reflexivity.
Qed.

Lemma scan_reached (keep : list string -> bool) (text : string) (n : nat) (s' : St.t) :
  (forall fuel, while keep (n + fuel) text (init) = while keep fuel text s') ->
  String.length text <= St.i s' ->
  scan keep text = Some s'.
Proof.
  intros W Hi. destruct (scan_total keep text) as (r & Hr & _).
  pose proof (while_more keep text _ n _ _ Hr) as Hm.
  rewrite Nat.add_comm, W, while_done in Hm by assumption.
  rewrite Hr. congruence.
Qed.

Lemma finalizedRows_plain (text : string) :
  noQuote text = true -> finalizedRows text = plainTable text.
Proof.
  intros Hnq.
  destruct (plain_run text "" (init) eq_refl eq_refl Hnq) as (s' & W & Ei & _ & Ef).
  cbn [append] in W, Ei.
  unfold finalizedRows, parseWith.
  rewrite (scan_reached _ text (String.length text) s' W) by lia.
  rewrite Ef. simpl. apply continue_nil.
Qed.

Lemma encodeRow_cons (c c' : string) (cs : list string) :
  encodeRow (c :: c' :: cs) = (quoted c ++ "," ++ encodeRow (c' :: cs))%string.
Proof. reflexivity. Qed.

Lemma encode_cons (r r' : list string) (rs : list (list string)) :
  encode (r :: r' :: rs) = (encodeRow r ++ nl ++ encode (r' :: rs))%string.
Proof. reflexivity. Qed.

Section RoundTrip.

Variable keep : list string -> bool.

Lemma row_run (cs : list string) (c p rest : string) (s : St.t) :
  St.i s = String.length p ->
  St.inQuotes s = false ->
  St.cur s = "" ->
  isChar (charAt rest 0) QUOTE = false ->
  exists n,
    forall fuel,
      while keep (n + fuel) (p ++ encodeRow (c :: cs) ++ rest) s
      = while keep fuel (p ++ encodeRow (c :: cs) ++ rest)
          (St.mk (St.rows s) (St.row s ++ removelast (c :: cs)) (last (c :: cs) "")
             (St.i s + String.length (encodeRow (c :: cs))) false).
Proof.
  revert c p s; induction cs as [|c' cs IH]; intros c p s Hi Hq Hc Hrest.
  - exists (String.length c + 2). intros fuel.
    change (encodeRow [c]) with (quoted c).
    rewrite (quoted_run keep c p rest fuel s Hi Hq Hrest).
    rewrite Hc. cbn [removelast last append]. now rewrite app_nil_r.
  - set (text := (p ++ encodeRow (c :: c' :: cs) ++ rest)%string).
    assert (Et1 : text = (p ++ quoted c ++ ("," ++ encodeRow (c' :: cs) ++ rest))%string).
    { unfold text. rewrite encodeRow_cons, !append_assoc. reflexivity. }
    assert (Et2 : text = (((p ++ quoted c) ++ ",") ++ encodeRow (c' :: cs) ++ rest)%string).
    { rewrite Et1, !append_assoc. reflexivity. }
    set (s2 := St.mk (St.rows s) (St.row s ++ [c]) ""
                 (St.i s + String.length (quoted c) + 1) false).
    destruct (IH c' ((p ++ quoted c) ++ ",")%string s2) as (n & W);
      [unfold s2; cbn [St.i]; rewrite !length_append, Hi; simpl; lia
      | reflexivity | reflexivity | assumption |].
    exists (String.length c + 2 + S n). intros fuel.
    rewrite <- Nat.add_assoc.
    rewrite Et1,
      (quoted_run keep c p ("," ++ encodeRow (c' :: cs) ++ rest) _ s Hi Hq eq_refl),
      <- Et1.
    cbn [Nat.add].
    set (s1 := St.mk _ _ _ _ false).
    assert (H0 : charAt text (St.i s1) = Some COMMA).
    { rewrite Et1, <- append_assoc. unfold s1; cbn [St.i].
      rewrite Hi, <- length_append. apply charAt_app_here. }
    rewrite while_unfold by (eapply charAt_some; exact H0).
    assert (Estep : step keep text s1 = s2).
    { unfold s1, s2. cbn [step]. unfold s1 in H0. cbn [St.i] in H0.
      rewrite H0. simpl. rewrite Hc. reflexivity. }
    rewrite Estep, Et2, W. f_equal. unfold s2. cbn [St.rows St.row St.cur St.i].
    f_equal.
    + rewrite <- app_assoc. reflexivity.
    + rewrite encodeRow_cons, !length_append. simpl. lia.
Qed.

Lemma scan_encodeRow (c : string) (cs : list string) :
  scan keep (encodeRow (c :: cs))
  = Some (St.mk [] (removelast (c :: cs)) (last (c :: cs) "")
            (String.length (encodeRow (c :: cs))) false).
Proof.
  destruct (row_run cs c "" "" (init) eq_refl eq_refl eq_refl eq_refl) as (n & W).
  cbn [append] in W. rewrite append_nil_r in W.
  apply (scan_reached keep _ n). 
  - intros fuel. apply W.
  - simpl. lia.
Qed.

Lemma parseWith_encodeRow (r : list string) :
  r <> [] -> parseWith keep (encodeRow r) = pushRow keep [] r.
Proof.
  destruct r as [|c cs]; [congruence|]. intros _.
  unfold parseWith. rewrite scan_encodeRow. unfold finish.
  cbn [St.rows St.row St.cur].
  rewrite <- app_removelast_last by discriminate. reflexivity.
Qed.

Lemma parseWith_encode (table : list (list string)) :
  table <> [] ->
  Forall (fun r => r <> []) table ->
  parseWith keep (encode table) = filter keep table.
Proof.
  intros Hne Hall. induction table as [|r table IH]; [congruence|].
  inversion Hall as [|? ? Hr Hrest]; subst.
  destruct table as [|r' table].
  - change (encode [r]) with (encodeRow r).
    rewrite parseWith_encodeRow by assumption.
    unfold pushRow. simpl. destruct (keep r); reflexivity.
  - rewrite encode_cons.
    destruct r as [|c cs]; [congruence|].
    rewrite (parseWith_lines keep _ _ _ (scan_encodeRow c cs) eq_refl).
    rewrite parseWith_encodeRow, IH by (assumption || discriminate).
    unfold pushRow. simpl. destruct (keep (c :: cs)); reflexivity.
Qed.

End RoundTrip.

Lemma combine_seq_app (A : Type) (a b : list A) (k : nat) :
  combine (a ++ b) (seq k (List.length (a ++ b)))
  = combine a (seq k (List.length a)) ++ combine b (seq (k + List.length a) (List.length b)).
Proof.
  revert k; induction a as [|x a IH]; intros k; simpl.
  - now rewrite Nat.add_0_r.
  - rewrite IH. replace (S k + List.length a) with (k + S (List.length a)) by lia.
    reflexivity.
Qed.

Lemma idxOf_app (header extra : list string) (name : string) :
  ~ In name extra ->
  getProp (idxOf (header ++ extra)) name = getProp (idxOf header) name.
Proof.
  intros Hn. unfold idxOf, fromEntries, entries.
  rewrite combine_seq_app, fold_left_app.
  apply getProp_fold_notin. now rewrite map_fst_combine_seq.
Qed.

Lemma idxOf_bound (header : list string) (name : string) (k : nat) :
  getProp (idxOf header) name = Some k -> k < List.length header.
Proof.
  intros H. apply getProp_fold_Some in H as [H|H]; [discriminate|].
  apply in_combine_r, in_seq in H. lia.
Qed.

(** When a name occurs several times in the header, its last position is
    the one in [idx]. *)
Lemma idxOf_last (pre post : list string) (name : string) :
  ~ In name post ->
  getProp (idxOf (pre ++ name :: post)) name = Some (List.length pre).
Proof.
  intros Hn. unfold idxOf, fromEntries, entries.
  rewrite combine_seq_app, fold_left_app. cbn [List.length seq combine fold_left fst snd].
  rewrite getProp_fold_notin by (now rewrite map_fst_combine_seq).
  now rewrite getProp_setProp, String.eqb_refl.
Qed.

Lemma cell_extra (header extra r e : list string) (name : string) :
  ~ In name extra ->
  List.length header <= List.length r ->
  cell (idxOf (header ++ extra)) (r ++ e) name = cell (idxOf header) r name.
Proof.
  intros Hn Hlen. unfold cell. rewrite idxOf_app by assumption.
  destruct (getProp (idxOf header) name) as [k|] eqn:E; [|reflexivity].
  apply idxOf_bound in E. now rewrite nth_error_app1 by lia.
Qed.

Lemma cell_padded (idx : object) (r : list string) (n : nat) (name : string) :
  cell idx (r ++ repeat "" n) name = cell idx r name.
Proof.
  unfold cell. destruct (getProp idx name) as [k|]; [|reflexivity].
  destruct (Nat.lt_ge_cases k (List.length r)) as [Hlt|Hge].
  - now rewrite nth_error_app1.
  - rewrite nth_error_app2 by assumption.
    rewrite (proj2 (nth_error_None r k)) by assumption.
    destruct (nth_error (repeat "" n) (k - List.length r)) as [c|] eqn:E; [|reflexivity].
    apply nth_error_In, repeat_spec in E. now subst.
Qed.

Lemma recordOf_cells (idx idx' : object) (r r' : list string) :
  (forall name, In name required -> cell idx' r' name = cell idx r name) ->
  recordOf idx' r' = recordOf idx r /\ incomplete idx' r' = incomplete idx r.
Proof.
  intros H. unfold recordOf, incomplete, get.
  rewrite !H by (simpl; tauto). split; reflexivity.
Qed.

Lemma mapRows_count (idx : object) (rs : list (list string)) (k : nat) (con : console) :
  List.length (filterBoolean (fst (mapRows idx rs k con)))
  + List.length (snd (mapRows idx rs k con))
  = List.length rs + List.length con.
Proof.
  rewrite mapRows_eq. cbn [fst snd]. rewrite filterBoolean_map, length_app, !length_map.
  unfold indexed. revert k; induction rs as [|r rs IH]; intros k; [simpl; lia|].
  cbn [filter List.length seq combine fst negb].
  specialize (IH (S k)).
  destruct (incomplete idx r); cbn [negb List.length]; lia.
Qed.

(** The complete header, decided. *)
Lemma header_complete_dec (header : list string) :
  (forall name, In name required -> In name header)
  \/ (exists name, In name required /\ ~ In name header).
Proof.
  induction required as [|x l IH].
  - left. intros name [].
  - destruct (in_dec string_dec x header) as [Hx|Hx].
    + destruct IH as [IH|(name & Hn & Hnot)].
      * left. intros name [<-|Hn]; [assumption | now apply IH].
      * right. exists name. split; [now right | assumption].
    + right. exists x. split; [now left | assumption].
Qed.

(** The ways [main] ends. *)
Lemma main_cases (fs : filesystem) (now : string) :
  (input fs = NoFile
   /\ main fs now = exit1 [(Error, "Missing data/shows.csv")])
  \/ (input fs = Unreadable
      /\ main fs now = exit1 [(Uncaught, "readFileSync")])
  \/ exists csvText : string,
      input fs = Contents csvText
      /\ ((List.length (parseCsv csvText) < 2
           /\ main fs now
              = exit1 [(Error, "CSV is empty (need header + at least one row).")])
          \/ (2 <= List.length (parseCsv csvText)
              /\ (exists name, In name required /\ ~ In name (headerOf csvText))
              /\ exists m1 m2, main fs now = exit1 [(Error, m1); (Error, m2)])
          \/ (2 <= List.length (parseCsv csvText)
              /\ (forall name, In name required -> In name (headerOf csvText))
              /\ main fs now
                 = let out := normalize (idxOf (headerOf csvText)) (tl (parseCsv csvText)) in
                   if mkdirThrows fs then throws (snd out) "mkdirSync"
                   else if writeThrows fs then throws (snd out) "writeFileSync"
                   else
                     mkRun (snd out
                            ++ [(Log, ("Wrote data/shows.json (" ++
                                        decimal (List.length (fst out)) ++ " shows)")%string)])
                       (Some ("data/shows.json",
                              mkDocument 1 now "data/shows.csv" (fst out))) 0)).
Proof.
  destruct (input fs) as [| |csvText] eqn:Hin.
  - left. split; [reflexivity|]. unfold main. now rewrite Hin.
  - right. left. split; [reflexivity|]. unfold main. now rewrite Hin.
  - right. right. exists csvText. split; [reflexivity|].
    destruct (Nat.lt_ge_cases (List.length (parseCsv csvText)) 2) as [Hlt|Hge].
    + left. split; [assumption|]. now apply (main_empty fs csvText now).
    + right. destruct (header_complete_dec (headerOf csvText)) as [Hall|(name & Hn & Hnot)].
      * right. split; [assumption|]. split; [assumption|].
        now apply (main_normalizes fs csvText now).
      * left. split; [assumption|]. split; [now exists name|].
        destruct (main_missing fs csvText now name Hin Hge Hn Hnot) as (missing & _ & _ & E).
        rewrite E. eauto.
Qed.

Lemma recordOf_wellFormed (idx : object) (r : list string) :
  incomplete idx r = false -> wellFormed (recordOf idx r).
Proof.
  intros Hc. unfold incomplete in Hc. apply orb_false_iff in Hc as [Hd Ht].
  apply String.eqb_neq in Hd, Ht.
  unfold wellFormed, recordOf. cbn [date title theatre place city comment genres rating].
  split; [assumption|]. split; [assumption|]. split; [|split].
  - unfold get. repeat constructor; apply trim_idem.
  - apply splitGenres_shape.
  - destruct (toNumberOrNull (get idx r "Hodnoceni")) as [x|] eqn:E; [|exact I].
    now apply toNumberOrNull_finite in E.
Qed.

(** X10. Every record of the output has a date and a title; its text
    fields are trimmed; each of its genres is the lower case of a piece
    that is not empty, is trimmed and has no delimiter; its rating is
    [null] or a finite number. *)
Lemma normalize_wellFormed (idx : object) (rs : list (list string)) :
  Forall wellFormed (fst (normalize idx rs)).
Proof.
  rewrite normalize_eq. cbn [fst]. apply Forall_forall. intros x Hx.
  apply in_map_iff in Hx as (r & <- & Hr). apply filter_In in Hr as [_ Hc].
  apply negb_true_iff in Hc. now apply recordOf_wellFormed.
Qed.

Lemma indexed_app (a b : list (list string)) (k : nat) :
  indexed (a ++ b) k = indexed a k ++ indexed b (k + List.length a).
Proof. unfold indexed. apply combine_seq_app. Qed.

Lemma combine_seq_shift (A : Type) (b : list A) (k j : nat) :
  combine b (seq (k + j) (List.length b))
  = map (fun x => (fst x, k + snd x)) (combine b (seq j (List.length b))).
Proof.
  revert j; induction b as [|r b IH]; intros j; simpl; [reflexivity|].
  f_equal. rewrite <- IH. now rewrite Nat.add_succ_r.
Qed.

(** X11. Rows are normalized one by one: the records of [a ++ b] are those
    of [a] then those of [b], and its warnings are those of [a] then those
    of [b], with row numbers that go on after the rows of [a]. *)
Lemma normalize_app (idx : object) (a b : list (list string)) :
  fst (normalize idx (a ++ b)) = fst (normalize idx a) ++ fst (normalize idx b)
  /\ snd (normalize idx (a ++ b))
     = snd (normalize idx a)
       ++ map (fun x => (Warn, skipped (List.length a + snd x)))
            (filter (fun x => incomplete idx (fst x)) (indexed b 0)).
Proof.
  rewrite !normalize_eq. cbn [fst snd]. split.
  - now rewrite filter_app, map_app.
  - rewrite indexed_app, filter_app, map_app. f_equal.
    unfold indexed. cbn [Nat.add].
    rewrite <- (Nat.add_0_r (List.length a)) at 1.
    rewrite combine_seq_shift.
    induction (combine b (seq 0 (List.length b))) as [|x l IH]; [reflexivity|].
    cbn [map filter fst snd]. destruct (incomplete idx (fst x)); cbn [map snd]; now rewrite IH.
Qed.

(** ** Genres written back *)

Lemma length_trimEnd (s : string) : String.length (trimEnd s) <= String.length s.
Proof.
  destruct (trimEnd_split s) as (w & E & _).
  rewrite E at 2. rewrite length_append. lia.
Qed.

Lemma trimStart_same_length (s : string) :
  String.length (trimStart s) = String.length s -> trimStart s = s.
Proof.
  functional induction (trimStart s); intros L; try reflexivity; exfalso;
    match goal with
    | H : String.length (trimStart ?r) = _ |- _ =>
        pose proof (length_trimStart r); simpl in H; lia
    end.
Qed.

(** A trimmed string has no white space at either end. *)
Lemma trim_fixed (g : string) : trim g = g -> trimStart g = g /\ trimEnd g = g.
Proof.
  intros H.
  assert (E : trimStart g = g).
  { apply trimStart_same_length.
    pose proof (length_trimEnd (trimStart g)) as H1. fold (trim g) in H1.
    rewrite H in H1. pose proof (length_trimStart g). lia. }
  split; [exact E|]. unfold trim in H. now rewrite E in H.
Qed.

Lemma trimStart_app_ascii (a b : string) :
  a <> "" -> isAscii a = true -> trimStart a = a ->
  trimStart (a ++ b) = (a ++ b)%string.
Proof.
  destruct a as [|c a]; [congruence|]. intros _ Ha H.
  cbn [isAscii] in Ha. apply andb_prop in Ha as [Hc _]. apply Nat.ltb_lt in Hc.
  cbn [append]. rewrite trimStart_ascii in * by assumption.
  destruct (isWhiteSpace1 c); [|reflexivity].
  pose proof (length_trimStart a) as L. rewrite H in L. simpl in L. lia.
Qed.

Lemma trimStart_app_white (a b : string) :
  isAscii a = true -> trimStart (a ++ b) = "" -> trimStart b = "".
Proof.
  induction a as [|c a IH]; intros Ha H; [exact H|].
  cbn [isAscii] in Ha. apply andb_prop in Ha as [Hc Ha]. apply Nat.ltb_lt in Hc.
  cbn [append] in H. rewrite trimStart_ascii in H by assumption.
  destruct (isWhiteSpace1 c); [now apply IH | discriminate].
Qed.

Lemma trimEnd_app_ascii (a b : string) :
  isAscii a = true -> b <> "" -> trimEnd b = b ->
  trimEnd (a ++ b) = (a ++ b)%string.
Proof.
  intros Ha Hb Eb.
  assert (Hw : trimStart b <> "").
  { intros W. destruct b as [|x r]; [congruence|].
    cbn [trimEnd] in Eb. rewrite W in Eb. discriminate. }
  induction a as [|c a IH]; [exact Eb|].
  pose proof Ha as Ha'. cbn [isAscii] in Ha'. apply andb_prop in Ha' as [_ Ha'].
  cbn [append trimEnd].
  destruct (String.eqb (trimStart (String c (a ++ b))) "") eqn:T.
  - exfalso. apply String.eqb_eq in T. apply Hw.
    now apply (trimStart_app_white (String c a) b).
  - now rewrite IH.
Qed.

Lemma join_glue (g : string) (gs : list string) :
  join ";" (g :: gs) = glue g (map (fun x => (";"%char, x)) gs).
Proof.
  revert g; induction gs as [|g' gs IH]; intros g; [reflexivity|].
  change (join ";" (g :: g' :: gs)) with (g ++ ";" ++ join ";" (g' :: gs))%string.
  rewrite IH. reflexivity.
Qed.

Lemma join_trimmed (g : string) (gs : list string) :
  Forall (fun x => isAscii x = true /\ x <> "" /\ trim x = x) (g :: gs) ->
  join ";" (g :: gs) <> "" /\ trimStart (join ";" (g :: gs)) = join ";" (g :: gs)
  /\ trimEnd (join ";" (g :: gs)) = join ";" (g :: gs).
Proof.
  revert g; induction gs as [|g' gs IH]; intros g H;
    inversion H as [|? ? (Ha & Hne & Ht) Hrest]; subst;
    destruct (trim_fixed g Ht) as [Hs He].
  - now repeat split.
  - destruct (IH g' Hrest) as (Jne & Js & Je).
    change (join ";" (g :: g' :: gs)) with (g ++ ";" ++ join ";" (g' :: gs))%string.
    repeat split.
    + destruct g; [congruence | discriminate].
    + now apply trimStart_app_ascii.
    + apply trimEnd_app_ascii; [assumption | discriminate |].
      now apply (trimEnd_app_ascii ";").
Qed.

Lemma isGenreDelim_asciiLower (c : ascii) :
  isGenreDelim (asciiLower c) = isGenreDelim c.
Proof. by_cases_on_char c. Qed.

Lemma splitGenres_asciiGenres (v : string) :
  isAscii v = true -> Forall isAsciiGenre (splitGenres v).
Proof.
  intros H. rewrite (splitGenres_ascii v H).
  apply Forall_forall. intros g Hg.
  apply in_map_iff in Hg as (t & <- & Ht).
  destruct (genrePieces v t Ht) as (Hne & Htrim & Hd).
  assert (Ha : isAscii t = true).
  { apply filter_In in Ht as [Ht _].
    apply in_map_iff in Ht as (piece & <- & Hp).
    apply isAscii_trim. rewrite isAscii_allChars.
    pose proof (split_allChars (fun c => nat_of_ascii c <? 128) isGenreDelim (trim v)) as S.
    rewrite Forall_forall in S. apply S; [|exact Hp].
    apply isAscii_trim in H. rewrite isAscii_allChars in H.
    eapply allChars_impl; [|exact H]. intros c Hc. now rewrite Hc, orb_true_r. }
  split; [now rewrite isAscii_asciiLowerCase|]. split; [split; [|split]|].
  - intros E. apply Hne. now apply (mapChars_empty asciiLower).
  - now rewrite trim_asciiLowerCase, Htrim.
  - clear - Hd. induction t as [|c t IH]; [reflexivity|].
    cbn [allChars] in Hd. apply andb_prop in Hd as [Hc Hd].
    change (asciiLowerCase (String c t)) with (String (asciiLower c) (asciiLowerCase t)).
    cbn [allChars]. now rewrite isGenreDelim_asciiLower, Hc, IH.
  - unfold asciiLowerCase. apply mapChars_mapChars, asciiLower_asciiLower.
Qed.

(** A list of such genres is read back from its members joined by
    semicolons. *)
Lemma splitGenres_join (gs : list string) :
  Forall isAsciiGenre gs -> splitGenres (join ";" gs) = gs.
Proof.
  intros Hg. destruct gs as [|g gs]; [reflexivity|].
  assert (Htr : Forall (fun x => isAscii x = true /\ x <> "" /\ trim x = x) (g :: gs))
    by (eapply Forall_impl; [|exact Hg];
        intros x (H1 & (H2 & H3 & _) & _); now repeat split).
  destruct (join_trimmed g gs Htr) as (Jne & Js & Je).
  unfold splitGenres.
  assert (Et : trim (join ";" (g :: gs)) = join ";" (g :: gs))
    by (unfold trim; now rewrite Js, Je).
  rewrite Et. apply String.eqb_neq in Jne. rewrite Jne.
  rewrite join_glue, split_glue.
  - rewrite map_map. cbn [snd]. rewrite map_id.
    clear - Hg toLowerCase_ascii.
    induction Hg as [|x l (H1 & (H2 & H3 & _) & H4) _ IH]; [reflexivity|].
    cbn [map filter]. rewrite H3. unfold truthy at 1.
    apply String.eqb_neq in H2. rewrite H2. cbn [negb map].
    now rewrite (toLowerCase_ascii x H1), H4, IH.
  - rewrite map_map, map_id. eapply Forall_impl; [|exact Hg].
    now intros x (_ & (_ & _ & H) & _).
  - rewrite map_map. cbn [fst]. clear. induction gs; constructor; auto.
Qed.

(** ** Percent signs that are left *)

Lemma digits_rest (base : N) (s : string) (acc : N) (n : nat) :
  hasChar PERCENT s = true ->
  hasChar PERCENT (snd (digits base s acc n)) = true.
Proof.
  revert acc n; induction s as [|c s IH]; intros acc n H; [discriminate|].
  cbn [digits]. destruct (digitOf base c) as [d|] eqn:E; [|exact H].
  apply IH. simpl in H. apply orb_prop in H as [Hc|Hs]; [|assumption].
  apply Ascii.eqb_eq in Hc. subst c. unfold digitOf in E. simpl in E. discriminate.
Qed.

Lemma signOf_rest (s : string) :
  hasChar PERCENT s = true -> hasChar PERCENT (snd (signOf s)) = true.
Proof.
  destruct s as [|c s]; [discriminate|].
  destruct c as [[] [] [] [] [] [] [] []]; simpl; auto.
Qed.

Lemma exponentPart_percent (s : string) :
  hasChar PERCENT s = true -> exponentPart s = None.
Proof.
  destruct s as [|c s]; [discriminate|]. intros H. unfold exponentPart.
  destruct (Ascii.eqb c "e" || Ascii.eqb c "E") eqn:E; [|reflexivity].
  assert (Hs : hasChar PERCENT s = true).
  { simpl in H. apply orb_prop in H as [Hc|Hs]; [|assumption].
    apply Ascii.eqb_eq in Hc. subst c. discriminate. }
  apply signOf_rest in Hs. destruct (signOf s) as [neg r']. cbn [snd] in Hs.
  pose proof (digits_rest 10 r' 0 0 Hs) as Hd.
  destruct (digits 10 r' 0 0) as [[v n] rest]. cbn [snd] in Hd.
  destruct n; [reflexivity|]. destruct rest; [discriminate | reflexivity].
Qed.

Lemma unsignedDecimal_percent (neg : bool) (s : string) :
  hasChar PERCENT s = true -> unsignedDecimal neg s = S754_nan.
Proof.
  intros H. unfold unsignedDecimal.
  destruct (String.eqb s "Infinity") eqn:E.
  { apply String.eqb_eq in E. subst s. discriminate. }
  pose proof (digits_rest 10 s 0 0 H) as H1.
  destruct (digits 10 s 0 0) as [[m1 n1] r1]. cbn [snd] in H1.
  assert (H2 : forall m n2 r2,
             match r1 with
             | String "." r => digits 10 r m1 0
             | _ => (m1, 0, r1)
             end = (m, n2, r2) -> hasChar PERCENT r2 = true).
  { intros m n2 r2 Er.
    destruct r1 as [|c r]; [discriminate|].
    destruct (Ascii.eqb c ".") eqn:Ec.
    - apply Ascii.eqb_eq in Ec. subst c.
      simpl in H1. pose proof (digits_rest 10 r m1 0 H1) as Hd.
      rewrite Er in Hd. exact Hd.
    - assert (Er' : (m1, 0, String c r) = (m, n2, r2)).
      { rewrite <- Er.
        destruct c as [[] [] [] [] [] [] [] []]; reflexivity || discriminate Ec. }
      injection Er' as _ _ <-. exact H1. }
  destruct (match r1 with
            | String "." r => digits 10 r m1 0
            | _ => (m1, 0, r1)
            end) as [[m n2] r2] eqn:Er.
  specialize (H2 m n2 r2 eq_refl).
  destruct (n1 + n2); [reflexivity|].
  now rewrite (exponentPart_percent r2 H2).
Qed.

Lemma nonDecimal_percent (s : string) :
  hasChar PERCENT s = true -> nonDecimal s = None \/ nonDecimal s = Some S754_nan.
Proof.
  intros H. unfold nonDecimal.
  destruct s as [|c0 [|c r]]; [now left | |].
  { left. destruct c0 as [[] [] [] [] [] [] [] []]; reflexivity. }
  destruct (Ascii.eqb c0 "0") eqn:E0.
  2:{ left. destruct c0 as [[] [] [] [] [] [] [] []]; reflexivity || discriminate E0. }
  apply Ascii.eqb_eq in E0. subst c0.
  set (base := if Ascii.eqb c "x" || Ascii.eqb c "X" then Some 16%N
               else if Ascii.eqb c "o" || Ascii.eqb c "O" then Some 8%N
               else if Ascii.eqb c "b" || Ascii.eqb c "B" then Some 2%N
               else None).
  destruct base as [b|] eqn:Eb; [|now left]. right.
  assert (Hr : hasChar PERCENT r = true).
  { simpl in H. apply orb_prop in H as [Hc|Hr]; [|assumption].
    apply Ascii.eqb_eq in Hc. subst c. discriminate Eb. }
  pose proof (digits_rest b r 0 0 Hr) as Hd.
  destruct (digits b r 0 0) as [[v n] rest]. cbn [snd] in Hd.
  destruct n; [reflexivity|]. destruct rest; [discriminate | reflexivity].
Qed.

(** [Number] of a string with a percent sign is [NaN]. *)
Lemma Number_percent (s : string) : hasChar PERCENT s = true -> Number s = S754_nan.
Proof.
  intros H. unfold Number.
  assert (Ht : hasChar PERCENT (trim s) = true)
    by (rewrite hasChar_trim; [assumption | now apply Nat.ltb_lt | reflexivity]).
  destruct (String.eqb (trim s) "") eqn:E.
  { apply String.eqb_eq in E. rewrite E in Ht. discriminate. }
  destruct (nonDecimal_percent _ Ht) as [-> | ->]; [|reflexivity].
  pose proof (signOf_rest _ Ht) as Hs.
  destruct (signOf (trim s)) as [neg r]. now apply unsignedDecimal_percent.
Qed.

(** X13. Only one percent sign is removed: when the trimmed value still
    has a percent sign after its first one is taken out, the result is
    [null]. *)
Lemma toNumberOrNull_percent_left (v : string) :
  hasChar PERCENT (replace PERCENT (trim v)) = true -> toNumberOrNull v = None.
Proof.
  intros H. rewrite toNumberOrNull_eq.
  destruct (String.eqb (replace PERCENT (trim v)) ""); [reflexivity|].
  now rewrite (Number_percent _ H).
Qed.

Lemma toNumberOrNull_percent_left_witness : toNumberOrNull "85%%" = None.
Proof. apply toNumberOrNull_percent_left. reflexivity. Defined.

(** X12. The genres of an ASCII value, joined by semicolons, are read
    back as the same genres. *)
Theorem splitGenres_rejoin (v : string) :
  isAscii v = true ->
  splitGenres (join ";" (splitGenres v)) = splitGenres v.
Proof. intros H. now apply splitGenres_join, splitGenres_asciiGenres. Qed.

(** ** Lines *)

(** X1. A newline outside quotes separates two texts that are parsed on
    their own: the rows of [a ++ nl ++ b] are the rows of [a], then the
    rows of [b], when the scan of [a] does not end inside quotes. *)
Theorem parseCsv_lines (a b : string) :
  endsInQuotes a = false ->
  parseCsv (a ++ nl ++ b) = parseCsv a ++ parseCsv b.
Proof.
  intros H. unfold endsInQuotes in H.
  destruct (scan_total hasContent a) as (sa & Hs & _). rewrite Hs in H.
  exact (parseWith_lines hasContent a b sa Hs H).
Qed.

Lemma parseCsv_lines_witness :
  parseCsv (("a," ++ quote ++ "b" ++ nl ++ "c" ++ quote) ++ nl ++ "d,e")
  = parseCsv ("a," ++ quote ++ "b" ++ nl ++ "c" ++ quote) ++ parseCsv "d,e".
Proof. apply parseCsv_lines. reflexivity. Defined.

Lemma scan_cr (keep : list string -> bool) (a : string) (sa : St.t) :
  scan keep a = Some sa ->
  St.inQuotes sa = false ->
  scan keep (a ++ cr)
  = Some (St.mk (St.rows sa) (St.row sa) (St.cur sa) (St.i sa + 1) false).
Proof.
  intros Ha Hq.
  destruct (scan_prefix keep a cr eq_refl) as (s & Hs & Ei & E).
  rewrite Ha in Hs. injection Hs as <-. rewrite E.
  assert (H0 : charAt (a ++ cr) (St.i sa) = Some CR)
    by (rewrite Ei; apply charAt_app_here).
  cbn [String.length cr].
  rewrite while_unfold by (eapply charAt_some; exact H0).
  assert (Estep : step keep (a ++ cr) sa
                  = St.mk (St.rows sa) (St.row sa) (St.cur sa) (St.i sa + 1) false).
  { destruct sa as [rs r c k q]; simpl in *; subst q. rewrite H0. reflexivity. }
  rewrite Estep. apply while_done. cbn [St.i]. rewrite length_append, Ei. simpl. lia.
Qed.

(** X2. Line ends may be written either way: when the scan of [a] does not
    end inside quotes, a newline or a carriage return at the end of [a]
    adds no row, and a carriage return before a newline changes nothing. *)
Theorem parseCsv_line_endings (a b : string) :
  endsInQuotes a = false ->
  parseCsv (a ++ nl) = parseCsv a
  /\ parseCsv (a ++ cr) = parseCsv a
  /\ parseCsv (a ++ cr ++ nl ++ b) = parseCsv a ++ parseCsv b.
Proof.
  intros H. unfold endsInQuotes in H.
  destruct (scan_total hasContent a) as (sa & Hs & _). rewrite Hs in H.
  pose proof (scan_cr hasContent a sa Hs H) as Hcr.
  assert (E2 : parseCsv (a ++ cr) = parseCsv a).
  { unfold parseCsv, parseWith. rewrite Hcr, Hs. reflexivity. }
  split; [|split; [exact E2|]].
  - change (a ++ nl)%string with (a ++ nl ++ "")%string.
    unfold parseCsv. rewrite (parseWith_lines hasContent a "" sa Hs H).
    change (parseWith hasContent "") with (@nil (list string)).
    apply app_nil_r.
  - replace (a ++ cr ++ nl ++ b)%string with ((a ++ cr) ++ nl ++ b)%string
      by (rewrite append_assoc; reflexivity).
    unfold parseCsv at 1. rewrite (parseWith_lines hasContent _ b _ Hcr eq_refl).
    fold (parseCsv (a ++ cr)). fold (parseCsv b). now rewrite E2.
Qed.

Lemma parseCsv_line_endings_witness :
  parseCsv ("a,b" ++ nl) = parseCsv "a,b"
  /\ parseCsv ("a,b" ++ cr) = parseCsv "a,b"
  /\ parseCsv ("a,b" ++ cr ++ nl ++ "c,d") = parseCsv "a,b" ++ parseCsv "c,d".
Proof. apply parseCsv_line_endings. reflexivity. Defined.

Lemma dropCR_idem (s : string) : dropCR (dropCR s) = dropCR s.
Proof.
  induction s as [|c s IH]; simpl; [reflexivity|].
  destruct (Ascii.eqb c CR) eqn:E; [exact IH|]. simpl. now rewrite E, IH.
Qed.

Lemma noQuote_dropCR (s : string) : noQuote s = true -> noQuote (dropCR s) = true.
Proof.
  induction s as [|c s IH]; simpl; [reflexivity|]. intros H.
  apply andb_prop in H as [Hc Hs].
  destruct (Ascii.eqb c CR); [now apply IH|]. simpl. now rewrite Hc, IH.
Qed.

(** X3. A text without quotes is cut into rows at its newlines and each
    row into cells at its commas, carriage returns left out; [parseCsv]
    gives those rows without the blank ones, so removing the carriage
    returns from such a text does not change its rows. *)
Theorem parseCsv_plain (text : string) :
  noQuote text = true ->
  finalizedRows text = map (split isComma) (split isLF (dropCR text))
  /\ parseCsv text
     = filter hasContent (map (split isComma) (split isLF (dropCR text)))
  /\ parseCsv (dropCR text) = parseCsv text.
Proof.
  intros H.
  assert (E : forall t, noQuote t = true ->
                        parseCsv t = filter hasContent (plainTable t)).
  { intros t Ht. unfold parseCsv. rewrite parseWith_filter.
    fold (finalizedRows t). now rewrite finalizedRows_plain. }
  split; [now apply finalizedRows_plain|]. split; [now apply E|].
  rewrite !E by (assumption || now apply noQuote_dropCR).
  unfold plainTable. now rewrite dropCR_idem.
Qed.

Lemma parseCsv_plain_witness :
  finalizedRows ("a, b" ++ cr ++ nl ++ ",," ++ nl ++ "c")
  = map (split isComma) (split isLF (dropCR ("a, b" ++ cr ++ nl ++ ",," ++ nl ++ "c")))
  /\ parseCsv ("a, b" ++ cr ++ nl ++ ",," ++ nl ++ "c")
     = filter hasContent
         (map (split isComma) (split isLF (dropCR ("a, b" ++ cr ++ nl ++ ",," ++ nl ++ "c"))))
  /\ parseCsv (dropCR ("a, b" ++ cr ++ nl ++ ",," ++ nl ++ "c"))
     = parseCsv ("a, b" ++ cr ++ nl ++ ",," ++ nl ++ "c").
Proof. apply parseCsv_plain. reflexivity. Defined.

(** X4. A table written as CSV with every cell quoted is read back as it
    was: the rows [parseCsv] finalizes are the rows of the table, and the
    rows it returns are those that are not blank.  The table must have a
    row, and each row a cell. *)
Theorem parseCsv_encode (table : list (list string)) :
  table <> [] ->
  Forall (fun r => r <> []) table ->
  finalizedRows (encode table) = table
  /\ parseCsv (encode table) = filter hasContent table.
Proof.
  intros Hne Hall. unfold finalizedRows, parseCsv.
  rewrite !parseWith_encode by assumption. split; [|reflexivity].
  clear. induction table as [|r t IH]; simpl; [reflexivity | now rewrite IH].
Qed.

Lemma parseCsv_encode_witness :
  finalizedRows (encode [["a,b"; ("c" ++ quote ++ "d")%string]; [""; " "]; [("e" ++ nl ++ "f")%string]])
  = [["a,b"; ("c" ++ quote ++ "d")%string]; [""; " "]; [("e" ++ nl ++ "f")%string]]
  /\ parseCsv (encode [["a,b"; ("c" ++ quote ++ "d")%string]; [""; " "]; [("e" ++ nl ++ "f")%string]])
     = filter hasContent
         [["a,b"; ("c" ++ quote ++ "d")%string]; [""; " "]; [("e" ++ nl ++ "f")%string]].
Proof.
  apply parseCsv_encode.
  - discriminate.
  - repeat constructor; discriminate.
Defined.

(** ** Columns *)

(** X5. When a column name occurs more than once in the header, the cells
    of its last occurrence are the ones read. *)
Theorem header_last_wins (pre post : list string) (name : string) :
  ~ In name post ->
  getProp (idxOf (pre ++ name :: post)) name = Some (List.length pre)
  /\ forall r : list string,
      get (idxOf (pre ++ name :: post)) r name = trim (nth (List.length pre) r "").
Proof.
  intros H. pose proof (idxOf_last pre post name H) as E.
  split; [exact E|]. intros r. unfold get. now rewrite (cell_nth _ _ _ _ E).
Qed.

Lemma header_last_wins_witness :
  getProp (idxOf (["Datum"; "Nazev"] ++ "Datum" :: ["Misto"])) "Datum" = Some 2
  /\ forall r : list string,
      get (idxOf (["Datum"; "Nazev"] ++ "Datum" :: ["Misto"])) r "Datum"
      = trim (nth 2 r "").
Proof.
  apply (header_last_wins ["Datum"; "Nazev"] ["Misto"] "Datum").
  simpl. intuition discriminate.
Defined.

(** X6. Columns that [main] does not ask for are ignored: more columns
    after the header's, with names that are not required ones, and more
    cells after those of a row that is at least as long as the header,
    change neither the record of the row nor whether it is skipped. *)
Theorem extra_columns_ignored (header extra r e : list string) :
  (forall name, In name required -> ~ In name extra) ->
  List.length header <= List.length r ->
  recordOf (idxOf (header ++ extra)) (r ++ e) = recordOf (idxOf header) r
  /\ incomplete (idxOf (header ++ extra)) (r ++ e) = incomplete (idxOf header) r.
Proof.
  intros Hn Hlen. apply recordOf_cells. intros name Hname.
  apply cell_extra; [now apply Hn | assumption].
Qed.

(** X7. A row that is shorter than the header is read as if it were
    filled up with empty cells: cells that are missing at its end and
    empty cells there give the same record and the same decision to skip
    the row. *)
Theorem short_row_padded (idx : object) (r : list string) (n : nat) :
  recordOf idx (r ++ repeat "" n) = recordOf idx r
  /\ incomplete idx (r ++ repeat "" n) = incomplete idx r.
Proof. apply recordOf_cells. intros name _. apply cell_padded. Qed.

(** ** Runs *)

Lemma normalize_count (idx : object) (rs : list (list string)) :
  List.length (fst (normalize idx rs)) + List.length (snd (normalize idx rs))
  = List.length rs.
Proof.
  pose proof (mapRows_count idx rs 0 []) as H. unfold normalize.
  destruct (mapRows idx rs 0 []) as [mapped con]. cbn [fst snd List.length] in *. lia.
Qed.

(** X8. When the text has a header with every required name and at least
    one more row, [main] normalizes the data rows, and no data row is
    lost: each one is a record or a warning.  When neither [mkdirSync]
    nor [writeFileSync] throws, it exits with code 0 after it has written
    the document, with version 1, the time of the run and the records;
    what it prints is one warning for each row it skipped and then the
    line that counts the records.  When one of the two throws, the
    warnings are followed by the report of the exception, nothing has
    been written and the exit code is 1. *)
Theorem main_success (fs : filesystem) (csvText now : string) :
  input fs = Contents csvText ->
  2 <= List.length (parseCsv csvText) ->
  (forall name, In name required -> In name (headerOf csvText)) ->
  exists (records : list ShowRecord) (skippedRows : console),
    normalize (idxOf (headerOf csvText)) (tl (parseCsv csvText))
    = (records, skippedRows)
    /\ Forall (fun l => fst l = Warn) skippedRows
    /\ List.length records + List.length skippedRows + 1
       = List.length (parseCsv csvText)
    /\ (mkdirThrows fs = false -> writeThrows fs = false ->
        main fs now
        = mkRun (skippedRows
                 ++ [(Log, ("Wrote data/shows.json (" ++ decimal (List.length records)
                            ++ " shows)")%string)])
            (Some ("data/shows.json", mkDocument 1 now "data/shows.csv" records)) 0)
    /\ (mkdirThrows fs = true ->
        main fs now = mkRun (skippedRows ++ [(Uncaught, "mkdirSync")]) None 1)
    /\ (mkdirThrows fs = false -> writeThrows fs = true ->
        main fs now = mkRun (skippedRows ++ [(Uncaught, "writeFileSync")]) None 1).
Proof.
  intros Hin Hlen Hall.
  pose proof (main_normalizes fs csvText now Hin Hlen Hall) as Hm. cbv zeta in Hm.
  pose proof (normalize_count (idxOf (headerOf csvText)) (tl (parseCsv csvText))) as Hc.
  pose proof (normalize_eq (idxOf (headerOf csvText)) (tl (parseCsv csvText))) as He.
  destruct (normalize (idxOf (headerOf csvText)) (tl (parseCsv csvText)))
    as [records skippedRows].
  exists records, skippedRows. cbn [fst snd] in *.
  split; [reflexivity|]. split; [|split; [|split; [|split]]].
  - injection He as _ ->. apply Forall_forall. intros l Hl.
    apply in_map_iff in Hl as (x & <- & _). reflexivity.
  - destruct (parseCsv csvText) as [|h t]; simpl in *; lia.
  - intros Hmk Hwr. now rewrite Hm, Hmk, Hwr.
  - intros Hmk. now rewrite Hm, Hmk.
  - intros Hmk Hwr. now rewrite Hm, Hmk, Hwr.
Qed.

(** X9. [main] exits with code 0 exactly when the file exists and can be
    read, its text has at least two rows, the trimmed cells of the first
    row have every required name, and neither [mkdirSync] nor
    [writeFileSync] throws; it then has written the document and its last
    line is the one that counts the records.  In every other case it
    exits with code 1, writes nothing and does not print that line. *)
Theorem main_outcome (fs : filesystem) (now : string) :
  (exitCode (main fs now) = 0 <->
   exists csvText : string,
     input fs = Contents csvText
     /\ 2 <= List.length (parseCsv csvText)
     /\ (forall name, In name required -> In name (headerOf csvText))
     /\ mkdirThrows fs = false
     /\ writeThrows fs = false)
  /\ (exitCode (main fs now) = 0
      /\ written (main fs now) <> None
      /\ (exists (con : console) (line : string),
            printed (main fs now) = con ++ [(Log, line)]
            /\ Forall (fun l => fst l = Warn) con)
      \/ exitCode (main fs now) = 1
         /\ written (main fs now) = None
         /\ Forall (fun l => fst l <> Log) (printed (main fs now))).
Proof.
  destruct (main_cases fs now)
    as [[Hin E] | [[Hin E] | (csvText & Hin &
         [[Hlt E] | [(Hge & (name & Hn & Hnot) & m1 & m2 & E) | (Hge & Hall & E)]])]].
  - rewrite E, Hin. cbn [exitCode written printed exit1].
    split; [|right; repeat split; repeat constructor; discriminate].
    split; [discriminate|]. intros (t & Ht & _). discriminate.
  - rewrite E, Hin. cbn [exitCode written printed exit1].
    split; [|right; repeat split; repeat constructor; discriminate].
    split; [discriminate|]. intros (t & Ht & _). discriminate.
  - rewrite E, Hin. cbn [exitCode written printed exit1].
    split; [|right; repeat split; repeat constructor; discriminate].
    split; [discriminate|]. intros (t & [= <-] & H2 & _). lia.
  - rewrite E, Hin. cbn [exitCode written printed exit1].
    split; [|right; repeat split; repeat constructor; discriminate].
    split; [discriminate|]. intros (t & [= <-] & _ & H & _).
    exfalso. now apply Hnot, H.
  - rewrite E, Hin. cbv zeta.
    pose proof (normalize_eq (idxOf (headerOf csvText)) (tl (parseCsv csvText))) as He.
    destruct (normalize (idxOf (headerOf csvText)) (tl (parseCsv csvText)))
      as [records skippedRows].
    cbn [fst snd] in *. injection He as _ Hs.
    assert (Hw : Forall (fun l : stream * string => fst l = Warn) skippedRows).
    { rewrite Hs. apply Forall_forall. intros l Hl.
      apply in_map_iff in Hl as (x & <- & _). reflexivity. }
    assert (Hn : forall call,
               Forall (fun l : stream * string => fst l <> Log)
                 (skippedRows ++ [(Uncaught, call)])).
    { intros call. apply Forall_app. split.
      - eapply Forall_impl; [|exact Hw]. intros l ->. discriminate.
      - repeat constructor. discriminate. }
    destruct (mkdirThrows fs) eqn:Hmk; [|destruct (writeThrows fs) eqn:Hwr];
      cbn [throws exitCode written printed exit1].
    + split; [|right; repeat split; apply Hn].
      split; [discriminate|]. intros (t & _ & _ & _ & H & _). discriminate.
    + split; [|right; repeat split; apply Hn].
      split; [discriminate|]. intros (t & _ & _ & _ & _ & H). discriminate.
    + split; [|left; split; [reflexivity | split; [discriminate | eauto]]].
      split; [|reflexivity]. intros _. now exists csvText.
Qed.

(** ** Quotes, and texts that are too short *)

Lemma countChar_app (c : ascii) (a b : string) :
  countChar c (a ++ b) = countChar c a + countChar c b.
Proof. induction a as [|x a IH]; simpl; [reflexivity | rewrite IH; lia]. Qed.

Lemma odd_plus_1 (n : nat) : Nat.odd (n + 1) = negb (Nat.odd n).
Proof. rewrite Nat.add_1_r, Nat.odd_succ, <- Nat.negb_odd. reflexivity. Qed.

Lemma odd_plus_2 (n : nat) : Nat.odd (n + 2) = Nat.odd n.
Proof. replace (n + 2) with (S (S n)) by lia. reflexivity. Qed.

Lemma while_parity (keep : list string -> bool) (fuel : nat) (p q : string) (s r : St.t) :
  St.i s = String.length p ->
  St.inQuotes s = Nat.odd (countChar QUOTE p) ->
  while keep fuel (p ++ q) s = Some r ->
  St.inQuotes r = Nat.odd (countChar QUOTE (p ++ q)).
Proof.
  revert p q s; induction fuel as [|fuel IH]; intros p q s Hi Hq W.
  - simpl in W. destruct (St.i s <? String.length (p ++ q)) eqn:G; [discriminate|].
    injection W as <-. apply Nat.ltb_ge in G. rewrite length_append, Hi in G.
    destruct q; [now rewrite append_nil_r | simpl in G; lia].
  - destruct q as [|ch q].
    { rewrite while_done in W by (rewrite append_nil_r; lia).
      injection W as <-. now rewrite append_nil_r. }
    assert (H0 : charAt (p ++ String ch q) (St.i s) = Some ch)
      by (rewrite Hi; apply charAt_app_here).
    rewrite while_unfold in W by (eapply charAt_some; exact H0).
    assert (E1 : (p ++ String ch q)%string = ((p ++ String ch "") ++ q)%string)
      by (rewrite append_assoc; reflexivity).
    assert (C1 : countChar QUOTE (p ++ String ch "")
                 = countChar QUOTE p + (if Ascii.eqb ch QUOTE then 1 else 0))
      by (rewrite countChar_app; simpl; lia).
    assert (L1 : String.length (p ++ String ch "") = St.i s + 1)
      by (rewrite length_append, Hi; reflexivity).
    destruct s as [rs rw c k f]. cbn [St.i St.inQuotes] in *.
    cbn [step] in W. rewrite H0 in W.
    destruct f.
    + destruct (Ascii.eqb ch QUOTE) eqn:Ech.
      * apply Ascii.eqb_eq in Ech. subst ch.
        destruct (isChar (charAt (p ++ String QUOTE q) (k + 1)) QUOTE) eqn:Ela.
        -- rewrite Hi, charAt_app_next in Ela.
           destruct q as [|ch2 q]; [discriminate|]. simpl in Ela.
           apply Ascii.eqb_eq in Ela. subst ch2.
           replace (p ++ String QUOTE (String QUOTE q))%string
             with ((p ++ String QUOTE (String QUOTE "")) ++ q)%string in *
             by (rewrite append_assoc; reflexivity).
           apply IH in W; [exact W | cbn; rewrite length_append; simpl; lia |].
           cbn [St.inQuotes]. rewrite countChar_app.
           change (countChar QUOTE (String QUOTE (String QUOTE ""))) with 2.
           now rewrite odd_plus_2.
        -- rewrite E1 in *. apply IH in W; [exact W | cbn; lia |].
           cbn [St.inQuotes]. rewrite C1, odd_plus_1, <- Hq. reflexivity.
      * rewrite E1 in *. apply IH in W; [exact W | cbn; lia |].
        cbn [St.inQuotes]. now rewrite C1, Nat.add_0_r.
    + destruct (Ascii.eqb ch QUOTE) eqn:Ech.
      * rewrite E1 in *. apply IH in W; [exact W | cbn; lia |].
        cbn [St.inQuotes]. rewrite C1, odd_plus_1, <- Hq. reflexivity.
      * assert (Wi : exists rs' rw' c',
                   while keep fuel (p ++ String ch q) (St.mk rs' rw' c' (k + 1) false)
                   = Some r).
        { destruct (Ascii.eqb ch COMMA); [eauto|].
          destruct (Ascii.eqb ch LF); [eauto|].
          destruct (Ascii.eqb ch CR); eauto. }
        destruct Wi as (rs' & rw' & c' & Wi). rewrite E1 in *.
        apply IH in Wi; [exact Wi | cbn; lia |].
        cbn [St.inQuotes]. now rewrite C1, Nat.add_0_r.
Qed.

(** X14. The scan of a text ends inside quotes exactly when the text has
    an odd number of quote characters. *)
Theorem endsInQuotes_parity (text : string) :
  endsInQuotes text = Nat.odd (countChar QUOTE text).
Proof.
  unfold endsInQuotes. destruct (scan_total hasContent text) as (s & Hs & _).
  rewrite Hs. apply (while_parity hasContent (String.length text) "" text init s);
    [reflexivity | reflexivity | exact Hs].
Qed.

Lemma allChars_dropCR (f : ascii -> bool) (s : string) :
  allChars f s = true -> allChars f (dropCR s) = true.
Proof.
  induction s as [|c s IH]; simpl; [reflexivity|]. intros H.
  apply andb_prop in H as [Hc Hs].
  destruct (Ascii.eqb c CR); [now apply IH | simpl; now rewrite Hc, IH].
Qed.

Lemma parseCsv_plainTable (text : string) :
  noQuote text = true -> parseCsv text = filter hasContent (plainTable text).
Proof.
  intros H. unfold parseCsv. rewrite parseWith_filter.
  fold (finalizedRows text). now rewrite finalizedRows_plain.
Qed.

(** X15. A text of nothing but white space and commas has no rows, and
    [main] rejects it as empty: it exits with code 1 and writes nothing. *)
Theorem main_rejects_blank (fs : filesystem) (text now : string) :
  input fs = Contents text ->
  allChars isBlankChar text = true ->
  parseCsv text = []
  /\ main fs now
     = exit1 [(Error, "CSV is empty (need header + at least one row).")].
Proof.
  intros Hin H.
  assert (Hnq : noQuote text = true).
  { clear now Hin. induction text as [|c t IH]; [reflexivity|]. simpl in *.
    apply andb_prop in H as [Hc Ht]. rewrite (IH Ht), andb_true_r.
    destruct c as [[] [] [] [] [] [] [] []]; reflexivity || discriminate Hc. }
  assert (E : parseCsv text = []).
  { rewrite parseCsv_plainTable by assumption. apply filter_none.
    intros r Hr. unfold plainTable in Hr.
    apply in_map_iff in Hr as (line & <- & Hline).
    assert (Hl : allChars isBlankChar line = true).
    { pose proof (split_allChars isBlankChar isLF (dropCR text)) as S.
      rewrite Forall_forall in S. apply S; [|exact Hline].
      apply allChars_dropCR. eapply allChars_impl; [|exact H].
      intros c Hc. now rewrite Hc, orb_true_r. }
    unfold hasContent. apply not_true_is_false. intros Hex.
    apply existsb_exists in Hex as (c & Hc & Hne).
    pose proof (split_allChars isWhiteSpace1 isComma line) as S.
    rewrite Forall_forall in S.
    assert (Hw : allChars isWhiteSpace1 c = true).
    { apply S; [|exact Hc]. eapply allChars_impl; [|exact Hl].
      intros x Hx. unfold isBlankChar in Hx. now rewrite orb_comm. }
    rewrite (trim_white c Hw) in Hne. discriminate. }
  split; [exact E|]. apply (main_empty fs text now Hin). rewrite E. simpl. lia.
Qed.

(** X16. A text without quotes and without a newline has one row at most,
    so a file with only a header line is rejected as empty. *)
Theorem main_rejects_one_line (fs : filesystem) (text now : string) :
  input fs = Contents text ->
  noQuote text = true ->
  allChars (fun c => negb (isLF c)) text = true ->
  List.length (parseCsv text) <= 1
  /\ main fs now
     = exit1 [(Error, "CSV is empty (need header + at least one row).")].
Proof.
  intros Hin Hnq Hlf.
  assert (E : List.length (parseCsv text) <= 1).
  { rewrite parseCsv_plainTable by assumption. unfold plainTable.
    rewrite split_whole by (now apply allChars_dropCR).
    simpl. destruct (hasContent _); simpl; lia. }
  split; [exact E|]. apply (main_empty fs text now Hin). lia.
Qed.

End Script.

(** * Instances

    The theorems that speak of the case conversions, at the conversions of
    the 26 letters, on inputs that are ASCII where the case matters. *)

(** The conversions of the 26 letters are functions as [toUpperCase] and
    [toLowerCase] are taken to be: each is itself on ASCII strings. *)
Lemma same_on_ascii (f : string -> string) (s : string) :
  isAscii s = true -> f s = f s.
Proof. reflexivity. Qed.

Lemma end_to_end_example_witness :
  main asciiUpperCase asciiLowerCase
    (onDisk ("Datum,Nazev,Soubor,Misto,Mesto,Hostovacka,StazenoZR,Zanry,Hodnoceni,Komentar"
             ++ nl
             ++ "2024-01-01,Hamlet,Troupe,Theatre,City,A,N,drama;tragedy,92,Great show")%string)
    "2024-02-03T04:05:06.789Z"
  = mkRun [(Log, "Wrote data/shows.json (1 shows)")]
      (Some ("data/shows.json",
             mkDocument 1 "2024-02-03T04:05:06.789Z" "data/shows.csv"
               [mkShow "2024-01-01" "Hamlet" "Troupe" "Theatre" "City" true false
                  ["drama"; "tragedy"] (Some (ofZ 92)) "Great show"]))
      0.
Proof.
  apply (proj1 (end_to_end_example asciiUpperCase asciiLowerCase
                  (same_on_ascii asciiUpperCase) (same_on_ascii asciiLowerCase)
                  "2024-02-03T04:05:06.789Z")).
Defined.

Lemma normBool_tokens_witness :
  (normBool asciiUpperCase " yEs " = true
   <-> In (asciiUpperCase (trim " yEs ")) truthyTokens)
  /\ normBool asciiUpperCase (asciiUpperCase " yEs ") = normBool asciiUpperCase " yEs "
  /\ normBool asciiUpperCase (asciiLowerCase " yEs ") = normBool asciiUpperCase " yEs ".
Proof.
  apply (proj1 (proj2 (proj2 (normBool_tokens asciiUpperCase asciiLowerCase
                                (same_on_ascii asciiUpperCase)))) " yEs ").
  reflexivity.
Defined.

Lemma splitGenres_pieces_witness :
  splitGenres asciiLowerCase " Drama; comedy,Site Specific|;drama "
  = map asciiLowerCase
      (filter (fun t => negb (String.eqb t ""))
         (map trim ["Drama"; " comedy"; "Site Specific"; ""; "drama"])).
Proof.
  refine (proj1 (splitGenres_pieces asciiLowerCase (same_on_ascii asciiLowerCase)
                   " Drama; comedy,Site Specific|;drama " "Drama"
                   [(";"%char, " comedy"); (","%char, "Site Specific"); ("|"%char, "");
                    (";"%char, "drama")] _ _ _)).
  - reflexivity.
  - repeat constructor.
  - repeat (constructor; [tauto|]). constructor.
Defined.

Lemma missing_column_fatal_witness :
  exitCode (main asciiUpperCase asciiLowerCase
              (onDisk ("Datum,Nazev , Misto" ++ nl ++ "2024-01-01,Hamlet,X")) "now") = 1
  /\ written (main asciiUpperCase asciiLowerCase
                (onDisk ("Datum,Nazev , Misto" ++ nl ++ "2024-01-01,Hamlet,X")) "now") = None.
Proof.
  assert (H := missing_column_fatal asciiUpperCase asciiLowerCase
                 (onDisk ("Datum,Nazev , Misto" ++ nl ++ "2024-01-01,Hamlet,X"))
                 ("Datum,Nazev , Misto" ++ nl ++ "2024-01-01,Hamlet,X") "now" "Soubor"
                 eq_refl).
  split; apply H.
  - simpl; tauto.
  - vm_compute; intuition discriminate.
  - simpl; tauto.
  - vm_compute; intuition discriminate.
Defined.

Lemma normalize_skips_incomplete_witness :
  In (Warn, skipped 1)
    (snd (normalize asciiUpperCase asciiLowerCase (idxOf ["Datum"; "Nazev"])
            [["2024-01-01"; "Hamlet"]; ["2024-01-02"; "  "]; ["2024-01-03"; "Faust"]]))
  <-> trim (nth 0 ["2024-01-02"; "  "] "") = "" \/ trim (nth 1 ["2024-01-02"; "  "] "") = "".
Proof.
  apply (normalize_skips_incomplete asciiUpperCase asciiLowerCase ["Datum"; "Nazev"] 0 1
           [["2024-01-01"; "Hamlet"]; ["2024-01-02"; "  "]; ["2024-01-03"; "Faust"]]
           eq_refl eq_refl).
  reflexivity.
Defined.

Lemma extra_columns_ignored_witness :
  recordOf asciiUpperCase asciiLowerCase (idxOf (["Nazev"; "Datum"] ++ ["Poznamka"]))
    (["Hamlet"; "2024-01-01"] ++ ["x"])
  = recordOf asciiUpperCase asciiLowerCase (idxOf ["Nazev"; "Datum"])
      ["Hamlet"; "2024-01-01"]
  /\ incomplete (idxOf (["Nazev"; "Datum"] ++ ["Poznamka"])) (["Hamlet"; "2024-01-01"] ++ ["x"])
     = incomplete (idxOf ["Nazev"; "Datum"]) ["Hamlet"; "2024-01-01"].
Proof.
  apply extra_columns_ignored.
  - intros name Hn Hin. simpl in Hn, Hin.
    destruct Hin as [<-|[]]. intuition discriminate.
  - simpl. lia.
Defined.

Lemma main_success_witness :
  exists (records : list ShowRecord) (skippedRows : console),
    normalize asciiUpperCase asciiLowerCase
      (idxOf (headerOf ("Datum,Nazev,Soubor,Misto,Mesto,Hostovacka,StazenoZR,Zanry,Hodnoceni,Komentar"
                        ++ nl ++ "2024-01-01,Hamlet" ++ nl ++ ",Faust")))
      (tl (parseCsv ("Datum,Nazev,Soubor,Misto,Mesto,Hostovacka,StazenoZR,Zanry,Hodnoceni,Komentar"
                     ++ nl ++ "2024-01-01,Hamlet" ++ nl ++ ",Faust")))
    = (records, skippedRows)
    /\ Forall (fun l => fst l = Warn) skippedRows
    /\ List.length records + List.length skippedRows + 1
       = List.length (parseCsv ("Datum,Nazev,Soubor,Misto,Mesto,Hostovacka,StazenoZR,Zanry,Hodnoceni,Komentar"
                                ++ nl ++ "2024-01-01,Hamlet" ++ nl ++ ",Faust")).
Proof.
  destruct (main_success asciiUpperCase asciiLowerCase
              (mkFilesystem
                 (Contents ("Datum,Nazev,Soubor,Misto,Mesto,Hostovacka,StazenoZR,Zanry,Hodnoceni,Komentar"
                            ++ nl ++ "2024-01-01,Hamlet" ++ nl ++ ",Faust"))
                 false true)
              ("Datum,Nazev,Soubor,Misto,Mesto,Hostovacka,StazenoZR,Zanry,Hodnoceni,Komentar"
               ++ nl ++ "2024-01-01,Hamlet" ++ nl ++ ",Faust")
              "now" eq_refl)
    as (records & skippedRows & E & Hw & Hc & _).
  - vm_compute. lia.
  - intros name Hn. vm_compute in Hn |- *. tauto.
  - exists records, skippedRows. now repeat split.
Defined.

Lemma main_rejects_blank_witness :
  parseCsv (" ,, " ++ cr ++ nl ++ nl ++ ",") = []
  /\ main asciiUpperCase asciiLowerCase (onDisk (" ,, " ++ cr ++ nl ++ nl ++ ",")) "now"
     = exit1 [(Error, "CSV is empty (need header + at least one row).")].
Proof. apply main_rejects_blank; reflexivity. Defined.

Lemma main_rejects_one_line_witness :
  List.length (parseCsv "Datum,Nazev,Soubor,Misto,Mesto,Hostovacka,StazenoZR,Zanry,Hodnoceni,Komentar") <= 1
  /\ main asciiUpperCase asciiLowerCase
       (onDisk "Datum,Nazev,Soubor,Misto,Mesto,Hostovacka,StazenoZR,Zanry,Hodnoceni,Komentar")
       "now"
     = exit1 [(Error, "CSV is empty (need header + at least one row).")].
Proof. apply main_rejects_one_line; reflexivity. Defined.

Lemma splitGenres_rejoin_witness :
  splitGenres asciiLowerCase
    (join ";" (splitGenres asciiLowerCase " Drama| comedy,,Site Specific;drama "))
  = splitGenres asciiLowerCase " Drama| comedy,,Site Specific;drama ".
Proof.
  apply (splitGenres_rejoin asciiLowerCase (same_on_ascii asciiLowerCase)).
  reflexivity.
Defined.
